(** * universe-map: the star catalog pipeline of the [Home] page

    A shallow embedding of the data path of the page component
    (the file with [StarField], [StarSidebar] and [Home]):

    - the row filter run when the CSV parse completes ([Home], the
      [complete] callback),
    - the search filter [filteredStars] ([Home]),
    - the buffer-filling loop and the star colour ([StarField]),
    - the click handler [handleClick] ([StarField]), with the pointer
      position it hands to the raycaster, and the way [Home] turns the
      reported index into the [selected] state,
    - the sidebar [StarSidebar] and what [Home] renders,
    - the point list of the earlier [StarField] component
      ([components/starfield.js]).

    Modelling conventions.

    - A JavaScript value is one of [undefined], a boolean, a number or a
      string ([value]); a parsed CSV row is an object, modelled as a
      finite map from property names to values, an absent property reading
      as [undefined].
    - A number is NaN, one of the two infinities, or a finite value kept
      as an exact rational in lowest terms.  [parseFloat] rounds the
      literal it reads to binary64 and a [Float32Array] slot holds the
      binary32 nearest to what is stored, both to nearest, ties to even,
      with overflow to an infinity.  The arithmetic of the colour and of
      the pointer position is kept exact: the rounding of each single
      operation is outside the model, and so is the sign of zero.
    - A string is a sequence of code units below 256 (the Latin-1 range),
      on which [toLowerCase] and the white space of [parseFloat] are
      modelled exactly.
    - The digits a finite number prints with ([Number::toString],
      [toFixed]) are left to the engine, as parameters. *)

From Stdlib Require Import QArith Qabs Qminmax Qround Lqa ZArith Ascii String Sorted.
From stdpp Require Import gmap strings list fin_maps.

Close Scope Q_scope.
Open Scope string_scope.

(** ** Numbers *)

Inductive number : Type :=
  | NaN
  | PosInf
  | NegInf
  | Fin (q : Q).

Definition isNaN (n : number) : bool :=
  match n with NaN => true | _ => false end.

Definition isFinite (n : number) : bool :=
  match n with Fin _ => true | _ => false end.

(** Unary minus. *)
Definition num_neg (n : number) : number :=
  match n with
  | NaN => NaN
  | PosInf => NegInf
  | NegInf => PosInf
  | Fin q => Fin (Qred (- q))
  end.

(** [a - b]. *)
Definition num_sub (a b : number) : number :=
  match a, b with
  | NaN, _ | _, NaN => NaN
  | PosInf, PosInf | NegInf, NegInf => NaN
  | PosInf, _ => PosInf
  | NegInf, _ => NegInf
  | Fin _, PosInf => NegInf
  | Fin _, NegInf => PosInf
  | Fin x, Fin y => Fin (Qred (x - y))
  end.

(** The sign of a number that is not NaN: [-1], [0] or [1]. *)
Definition num_sgn (n : number) : Z :=
  match n with
  | NaN => 0
  | PosInf => 1
  | NegInf => -1
  | Fin q => Z.sgn (Qnum q)
  end%Z.

(** [a * b]: an infinity times zero is NaN. *)
Definition num_mul (a b : number) : number :=
  match a, b with
  | NaN, _ | _, NaN => NaN
  | Fin x, Fin y => Fin (Qred (x * y))
  | _, _ =>
      match (num_sgn a * num_sgn b)%Z with
      | Z0 => NaN
      | Zpos _ => PosInf
      | Zneg _ => NegInf
      end
  end.

(** [Math.abs]. *)
Definition Math_abs (n : number) : number :=
  match n with
  | NaN => NaN
  | PosInf | NegInf => PosInf
  | Fin q => Fin (Qred (Qabs q))
  end.

(** [Math.min] and [Math.max] of two arguments: NaN if either is NaN. *)
Definition Math_min (a b : number) : number :=
  match a, b with
  | NaN, _ | _, NaN => NaN
  | NegInf, _ | _, NegInf => NegInf
  | PosInf, n | n, PosInf => n
  | Fin x, Fin y => if Qle_bool x y then a else b
  end.

Definition Math_max (a b : number) : number :=
  match a, b with
  | NaN, _ | _, NaN => NaN
  | PosInf, _ | _, PosInf => PosInf
  | NegInf, n | n, NegInf => n
  | Fin x, Fin y => if Qle_bool x y then b else a
  end.

(** ** Rounding to a binary format

    The value of a finite number in a format of [prec] significant bits,
    least exponent [emin] (that of the smallest subnormal) and greatest
    exponent [emax]: the nearest representable value, the one with the
    even significand at a tie, an infinity from [2^(emax+1)] on. *)

(** The floor of the binary logarithm of a positive rational. *)
Definition ilog2 (a : Q) : Z :=
  let e := (Z.log2 (Qnum a) - Z.log2 (Zpos (Qden a)))%Z in
  if Qle_bool (2 ^ e) a then e else (e - 1)%Z.

(** The nearest integer, the even one at a tie. *)
Definition nearest_even (q : Q) : Z :=
  let f := Qfloor q in
  match (q - inject_Z f ?= 1 # 2)%Q with
  | Lt => f
  | Gt => (f + 1)%Z
  | Eq => if Z.even f then f else (f + 1)%Z
  end.

Definition round_binary (prec emin emax : Z) (q : Q) : number :=
  if Qeq_bool q 0 then Fin 0 else
  let a := Qabs q in
  let k := Z.max (ilog2 a - (prec - 1)) emin in
  let v := (inject_Z (nearest_even (a / 2 ^ k)) * 2 ^ k)%Q in
  if Qle_bool (2 ^ (emax + 1)) v
  then (if (Qnum q <? 0)%Z then NegInf else PosInf)
  else Fin (Qred (if (Qnum q <? 0)%Z then - v else v)).

(** The binary64 value of a real. *)
Definition round64 (q : Q) : number := round_binary 53 (-1074) 1023 q.

(** [Math.fround]: the binary32 value of a number, which is what a
    [Float32Array] slot holds of it. *)
Definition fround (n : number) : number :=
  match n with
  | Fin q => round_binary 24 (-149) 127 q
  | _ => n
  end.

(** ** Values and objects *)

Inductive value : Type :=
  | Undefined
  | Bool (b : bool)
  | Num (n : number)
  | Str (s : string).

(** [ToBoolean]: the falsy values are [undefined], [false], [0], NaN and
    the empty string. *)
Definition ToBoolean (v : value) : bool :=
  match v with
  | Undefined => false
  | Bool b => b
  | Num NaN => false
  | Num (Fin q) => negb (Qeq_bool q 0)
  | Num _ => true
  | Str EmptyString => false
  | Str _ => true
  end.

(** [a && b] returns one of its operands. *)
Definition js_and (a b : value) : value := if ToBoolean a then b else a.

(** [n || 0] on numbers. *)
Definition num_or (n d : number) : number :=
  if ToBoolean (Num n) then n else d.

(** A row object as delivered by the CSV parser in header mode. *)
Abbreviation row := (gmap string value).

(** Property access [r.k]. *)
Definition prop (r : row) (k : string) : value := default Undefined (r !! k).

(** ** Strings *)

(** [String.prototype.toLowerCase] on the Latin-1 range: the letters A-Z
    and the accented capitals U+00C0..U+00DE, U+00D7 (the multiplication
    sign) excepted, move up by 32. *)
Definition lower_char (c : ascii) : ascii :=
  let n := N_of_ascii c in
  if ((65 <=? n) && (n <=? 90) ||
      (192 <=? n) && (n <=? 222) && negb (n =? 215))%N
  then ascii_of_N (n + 32)
  else c.

Fixpoint toLowerCase (s : string) : string :=
  match s with
  | EmptyString => EmptyString
  | String c s' => String (lower_char c) (toLowerCase s')
  end.

(** [s.includes(t)]: [t] occurs in [s] as a contiguous substring. *)
Fixpoint includes (s t : string) : bool :=
  String.prefix t s ||
  match s with
  | EmptyString => false
  | String _ s' => includes s' t
  end.

(** ** [parseFloat] *)

(** White space and line terminators below 256: TAB, LF, VT, FF, CR,
    SP and NBSP. *)
Definition is_white (c : ascii) : bool :=
  let n := N_of_ascii c in
  ((9 <=? n) && (n <=? 13) || (n =? 32) || (n =? 160))%N.

Fixpoint trim_start (s : string) : string :=
  match s with
  | EmptyString => EmptyString
  | String c s' => if is_white c then trim_start s' else s
  end.

Definition digit_of (c : ascii) : option Z :=
  let n := N_of_ascii c in
  if ((48 <=? n) && (n <=? 57))%N then Some (Z.of_N n - 48)%Z else None.

(** Reads the longest run of decimal digits at the head of [s], on top
    of the digits [acc] already read: the value, how many digits were
    read, and what follows them. *)
Fixpoint read_digits (s : string) (acc : Z) (cnt : nat) : Z * nat * string :=
  match s with
  | EmptyString => (acc, cnt, s)
  | String c s' =>
      match digit_of c with
      | Some d => read_digits s' (10 * acc + d)%Z (S cnt)
      | None => (acc, cnt, s)
      end
  end.

(** The value of the [ExponentPart] at the head of [s], [0] when there is
    none: an [e] or [E], an optional sign and at least one digit. *)
Definition read_exponent (s : string) : Z :=
  match s with
  | String c s' =>
      if (Ascii.eqb c "e" || Ascii.eqb c "E")%char then
        let '(sg, ds) :=
          match s' with
          | String "+"%char t => (1%Z, t)
          | String "-"%char t => ((-1)%Z, t)
          | _ => (1%Z, s')
          end in
        let '(e, n, _) := read_digits ds 0 0 in
        match n with O => 0%Z | S _ => (sg * e)%Z end
      else 0%Z
  | EmptyString => 0%Z
  end.

(** [m * 10^e], the mathematical value of a literal, as a rational in
    lowest terms. *)
Definition scale10 (m e : Z) : Q :=
  match e with
  | Zneg p => Qred (Qmake m (10 ^ p))
  | _ => Qred (inject_Z (m * 10 ^ e))
  end.

(** The longest prefix of [s] that is a [StrUnsignedDecimalLiteral]:
    [Infinity], digits with an optional fraction, or a fraction alone,
    each with an optional exponent, read as the binary64 nearest to its
    value.  NaN when no prefix is one. *)
Definition StrUnsignedDecimalLiteral (s : string) : number :=
  if String.prefix "Infinity" s then PosInf else
  let '(i, ni, r) := read_digits s 0 0 in
  let '(m, nf, r') :=
    match r with
    | String "."%char t => read_digits t i 0
    | _ => (i, O, r)
    end in
  match ni, nf with
  | O, O => NaN
  | _, _ => round64 (scale10 m (read_exponent r' - Z.of_nat nf))
  end.

Definition StrDecimalLiteral (s : string) : number :=
  match s with
  | String "+"%char t => StrUnsignedDecimalLiteral t
  | String "-"%char t => num_neg (StrUnsignedDecimalLiteral t)
  | _ => StrUnsignedDecimalLiteral s
  end.

(** [parseFloat(v)]: the argument is converted to a string, leading white
    space is dropped and the longest numeric prefix is read.  [undefined]
    and booleans print as words and give NaN; a number prints as a
    literal that reads back as itself. *)
Definition parseFloat (v : value) : number :=
  match v with
  | Undefined | Bool _ => NaN
  | Num n => n
  | Str s => StrDecimalLiteral (trim_start s)
  end.

(** ** The row filter of the [complete] callback ([Home])

    [results.data.filter((row) => row.x && row.y && row.z &&
    !isNaN(parseFloat(row.x)))]: the callback's value, and the rows it
    keeps. *)

Definition row_ok (r : row) : value :=
  js_and (js_and (js_and (prop r "x") (prop r "y")) (prop r "z"))
         (Bool (negb (isNaN (parseFloat (prop r "x"))))).

Definition filtered (data : list row) : list row :=
  List.filter (fun r => ToBoolean (row_ok r)) data.

(** ** The search filter [filteredStars] ([Home])

    A method call on a value that is not a string throws a [TypeError]:
    [None] stands for the exception, and [&&] and [||] evaluate their
    right operand only when the left one does not decide. *)

Definition call_toLowerCase (v : value) : option string :=
  match v with
  | Str s => Some (toLowerCase s)
  | _ => None
  end.

(** [v && v.toLowerCase().includes(search.toLowerCase())] *)
Definition field_match (search : string) (v : value) : option value :=
  if ToBoolean v then
    low ← call_toLowerCase v;
    Some (Bool (includes low (toLowerCase search)))
  else Some v.

(** The callback of [stars.filter]. *)
Definition star_match (search : string) (s : row) : option value :=
  a ← field_match search (prop s "proper");
  if ToBoolean a then Some a else
  b ← field_match search (prop s "bayer");
  if ToBoolean b then Some b else
  field_match search (prop s "gl").

(** [Array.prototype.filter] with a callback that may throw. *)
Fixpoint array_filter (f : row -> option value) (l : list row)
  : option (list row) :=
  match l with
  | [] => Some []
  | s :: l' =>
      v ← f s;
      rest ← array_filter f l';
      Some (if ToBoolean v then s :: rest else rest)
  end.

Definition filteredStars (stars : list row) (search : string)
  : option (list row) :=
  if (1 <? String.length search)%nat
  then array_filter (star_match search) stars
  else Some stars.

(** ** The star colour ([StarField], the body of the loop)

    [let color = [1, 1, 1]; if (s.ci) { const c = Math.max(-0.4,
    Math.min(2, parseFloat(s.ci) || 0)); color = [...] }], as a function
    of the value of [s.ci]. *)

Definition clamp_ci (ci : value) : number :=
  Math_max (Fin (-2 # 5)) (Math_min (Fin 2) (num_or (parseFloat ci) (Fin 0))).

Definition color (ci : value) : number * number * number :=
  if ToBoolean ci then
    let c := clamp_ci ci in
    (Math_min (Fin 1) (num_sub (Fin (3 # 2)) c),
     Math_min (Fin 1) (num_sub (Fin (6 # 5)) (Math_abs (num_sub (Fin (2 # 5)) c))),
     Math_min (Fin 1) (num_mul (Fin (9 # 5)) c))
  else (Fin 1, Fin 1, Fin 1).

(** ** The position and colour buffers ([StarField])

    A [Float32Array] of [n] slots starts as [n] zeros; a write at an
    index is an in-place update that stores the binary32 value of the
    number written. *)

Definition Float32Array (n : nat) : list number := replicate n (Fin 0).

(** One turn of [for (let i = 0; i < stars.length; i++)]; [stars !! i]
    is there for every [i] the loop reaches. *)
Definition fill_star (stars : list row)
    (bufs : list number * list number) (i : nat)
  : list number * list number :=
  match stars !! i with
  | None => bufs
  | Some s =>
      let '(positions, colors) := bufs in
      let positions :=
        <[i * 3 + 0 := fround (parseFloat (prop s "x"))]> positions in
      let positions :=
        <[i * 3 + 1 := fround (parseFloat (prop s "y"))]> positions in
      let positions :=
        <[i * 3 + 2 := fround (parseFloat (prop s "z"))]> positions in
      let '(cr, cg, cb) := color (prop s "ci") in
      let colors := <[i * 3 + 0 := fround cr]> colors in
      let colors := <[i * 3 + 1 := fround cg]> colors in
      let colors := <[i * 3 + 2 := fround cb]> colors in
      (positions, colors)
  end.

(** The two arrays after the loop: [(positions, colors)]. *)
Definition buffers (stars : list row) : list number * list number :=
  foldl (fill_star stars)
        (Float32Array (length stars * 3), Float32Array (length stars * 3))
        (seq 0 (length stars)).

(** What [StarField] hands to the renderer: nothing for an empty
    [stars] (the early exit), the two buffers otherwise. *)
Definition StarField (stars : list row)
  : option (list number * list number) :=
  match stars with
  | [] => None
  | _ => Some (buffers stars)
  end.

(** ** Picking ([StarField], [handleClick])

    The raycaster is the renderer's: the model takes the list
    [raycaster.intersectObject] returns.  [handleClick] gives the
    argument of its call of [onStarClick], if it makes one. *)

Record intersection : Type := { distance : Q; index : nat }.

Definition handleClick (intersects : list intersection) : option nat :=
  if (0 <? length intersects)%nat
  then index <$> intersects !! 0%nat
  else None.

(** ** The state of [Home] *)

(** What [selected] can hold: [null], [undefined] (an index past the
    end of the array) or a row. *)
Inductive star_ref : Type :=
  | Null
  | NoElement
  | Star (r : row).

(** [a[i]] *)
Definition element (a : list row) (i : nat) : star_ref :=
  match a !! i with
  | Some r => Star r
  | None => NoElement
  end.

Record Home : Type := {
  stars : list row;
  selected : star_ref;
  search : string;
  loading : bool
}.

(** The four [useState] initial values. *)
Definition initial : Home :=
  {| stars := []; selected := Null; search := ""; loading := true |}.

Inductive event : Type :=
  | Complete (data : list row)
      (** the CSV parse completes with these rows *)
  | Change (text : string)
      (** [onChange] of the search input *)
  | Click (intersects : list intersection)
      (** a click on the canvas; the raycaster returns [intersects] *)
  | Close.
      (** the close button of the sidebar *)

(** [onStarClick]: [index => setSelected(filteredStars[index])] *)
Definition onStarClick (st : Home) (shown : list row) (i : nat) : Home :=
  {| stars := stars st; selected := element shown i;
     search := search st; loading := loading st |}.

(** [StarField], and with it the click listener, is mounted only when
    [filteredStars.length > 0]. *)
Definition step (st : Home) (e : event) : Home :=
  match e with
  | Complete data =>
      {| stars := filtered data; selected := selected st;
         search := search st; loading := false |}
  | Change text =>
      {| stars := stars st; selected := selected st;
         search := text; loading := loading st |}
  | Click intersects =>
      match filteredStars (stars st) (search st) with
      | Some (s :: shown) =>
          match handleClick intersects with
          | Some i => onStarClick st (s :: shown) i
          | None => st
          end
      | _ => st
      end
  | Close =>
      {| stars := stars st; selected := Null;
         search := search st; loading := loading st |}
  end.

Definition run (st : Home) (es : list event) : Home := foldl step st es.

(** ** The pointer position of [handleClick] ([StarField])

    [x = ((event.clientX - left) / width) * 2 - 1] and
    [y = -((event.clientY - top) / height) * 2 + 1], on the bounding
    rectangle of the canvas. *)

(** [a + b] *)
Definition num_add (a b : number) : number :=
  match a, b with
  | NaN, _ | _, NaN => NaN
  | PosInf, NegInf | NegInf, PosInf => NaN
  | PosInf, _ | _, PosInf => PosInf
  | NegInf, _ | _, NegInf => NegInf
  | Fin x, Fin y => Fin (Qred (x + y))
  end.

(** [a / b]; a zero divisor is read as [+0]. *)
Definition num_div (a b : number) : number :=
  match a, b with
  | NaN, _ | _, NaN => NaN
  | Fin x, Fin y =>
      if Qeq_bool y 0 then
        match Z.sgn (Qnum x) with
        | Z0 => NaN
        | Zpos _ => PosInf
        | Zneg _ => NegInf
        end
      else Fin (Qred (x / y))
  | Fin _, _ => Fin 0
  | _, Fin y =>
      match Z.sgn (Qnum y) with
      | Zneg _ => num_neg a
      | _ => a
      end
  | _, _ => NaN
  end.

Definition mouse (clientX clientY left top width height : number)
  : number * number :=
  (num_sub (num_mul (num_div (num_sub clientX left) width) (Fin 2)) (Fin 1),
   num_add (num_mul (num_neg (num_div (num_sub clientY top) height)) (Fin 2))
           (Fin 1)).

(** ** The earlier [StarField] component ([components/starfield.js])

    [results.data.map(star => [parseFloat(star.x), parseFloat(star.y),
    parseFloat(star.z)])]: every parsed row, unfiltered. *)


(** ** The sidebar ([StarSidebar]) *)

(** [a || b] returns one of its operands. *)
Definition js_or (a b : value) : value := if ToBoolean a then a else b.

Section Formatting.

(** The digits of a finite number, [Number::toString] and
    [Number.prototype.toFixed], are the engine's. *)
Variable Number_toString : Q -> string.
Variable toFixed : Q -> nat -> string.

Definition ToString (v : value) : string :=
  match v with
  | Undefined => "undefined"
  | Bool true => "true"
  | Bool false => "false"
  | Num NaN => "NaN"
  | Num PosInf => "Infinity"
  | Num NegInf => "-Infinity"
  | Num (Fin q) => Number_toString q
  | Str s => s
  end.

(** [n.toFixed(digits)]: a number that is not finite prints as it is. *)
Definition number_toFixed (n : number) (digits : nat) : string :=
  match n with
  | Fin q => toFixed q digits
  | _ => ToString (Num n)
  end.

(** [a.join(sep)]: an [undefined] element prints as nothing. *)
Fixpoint join (sep : string) (a : list value) : string :=
  match a with
  | [] => ""
  | v :: a' =>
      let item := match v with Undefined => "" | _ => ToString v end in
      match a' with
      | [] => item
      | _ :: _ => item ++ sep ++ join sep a'
      end
  end.

(** The values the sidebar puts on screen, top to bottom. *)
Record sidebar : Type := {
  sb_title : value;
  sb_names : value;
  sb_distance : value;
  sb_magnitude : value;
  sb_spectral : value;
  sb_constellation : value;
  sb_ra : value;
  sb_dec : value;
  sb_hipparcos : value
}.

(** [if (!star) return null], then the nine expressions of the panel. *)
Definition StarSidebar (star : star_ref) : option sidebar :=
  match star with
  | Null | NoElement => None
  | Star s =>
      Some
        {| sb_title := js_or (prop s "proper") (Str "Unnamed star");
           sb_names :=
             if ToBoolean (js_or (js_or (prop s "bayer") (prop s "gl"))
                                 (prop s "hd"))
             then Str (join ", "
                         (List.filter ToBoolean
                            [prop s "bayer"; prop s "gl"; prop s "hd"]))
             else Str "No alternate names";
           sb_distance :=
             if ToBoolean (prop s "dist")
             then Str (number_toFixed (parseFloat (prop s "dist")) 2 ++ " ly")
             else Str "?";
           sb_magnitude := js_or (prop s "mag") (Str "?");
           sb_spectral := js_or (prop s "spect") (Str "?");
           sb_constellation := js_or (prop s "con") (Str "?");
           sb_ra := js_or (prop s "ra") (Str "?");
           sb_dec := js_or (prop s "dec") (Str "?");
           sb_hipparcos := js_or (prop s "hip") (Str "N/A") |}
  end.

(** ** What [Home] renders

    The sidebar for [selected], the loading message while [loading], and
    [StarField] when [filteredStars.length > 0]; [None] when computing
    [filteredStars] throws. *)

Record page : Type := {
  page_sidebar : option sidebar;
  page_loading : bool;
  page_points : option (list number * list number)
}.

Definition render (st : Home) : option page :=
  shown ← filteredStars (stars st) (search st);
  Some {| page_sidebar := StarSidebar (selected st);
          page_loading := loading st;
          page_points :=
            if (0 <? length shown)%nat then StarField shown else None |}.

End Formatting.

(** * Specification vocabulary

    The notions the statements below are phrased in, worded after the
    specification, and the concrete rows and states of its scenarios. *)

(** The clamp of a number that is not NaN to [[lo, hi]], as the
    specification words it. *)
Definition clamp (n : number) (lo hi : Q) : Q :=
  match n with
  | NaN => 0
  | NegInf => lo
  | PosInf => hi
  | Fin q => Qmax lo (Qmin hi q)
  end.

(** The three channels as the specification gives them, over the
    rationals, for a clamped index [c]. *)
Definition red_of (c : Q) : Q := Qmin 1 ((3 # 2) - c).

Definition green_of (c : Q) : Q := Qmin 1 ((6 # 5) - Qabs ((2 # 5) - c)).

Definition blue_of (c : Q) : Q := Qmin 1 ((9 # 5) * c).

Definition white : number * number * number := (Fin 1, Fin 1, Fin 1).

(** A channel that is a finite number between [lo] and [hi]. *)
Definition channel_in (lo hi : Q) (n : number) : Prop :=
  match n with
  | Fin q => (lo <= q <= hi)%Q
  | _ => False
  end.

(** All three channels in [[0, 1]]. *)
Definition unit_triple (t : number * number * number) : Prop :=
  let '(r, g, b) := t in
  channel_in 0 1 r /\ channel_in 0 1 g /\ channel_in 0 1 b.

(** A number-typed zero: falsy, though it is a number. *)
Definition zero_number (v : value) : bool :=
  match v with
  | Num (Fin q) => Qeq_bool q 0
  | _ => false
  end.

(** [n < q] and [q < n] for a number [n]. *)
Definition below (n : number) (q : Q) : Prop :=
  match n with
  | NegInf => True
  | Fin x => (x < q)%Q
  | _ => False
  end.

Definition above (n : number) (q : Q) : Prop :=
  match n with
  | PosInf => True
  | Fin x => (q < x)%Q
  | _ => False
  end.

(** The shapes of string [parseFloat] reads a number from. *)
Definition starts_digit (s : string) : bool :=
  match s with
  | String c _ => match digit_of c with Some _ => true | None => false end
  | EmptyString => false
  end.

Definition starts_unsigned (s : string) : bool :=
  String.prefix "Infinity" s || starts_digit s ||
  match s with
  | String "."%char t => starts_digit t
  | _ => false
  end.

Definition starts_number (s : string) : bool :=
  match s with
  | String "+"%char t | String "-"%char t => starts_unsigned t
  | _ => starts_unsigned s
  end.

(** A field as the CSV parser delivers it: a string, or nothing. *)
Definition text_or_absent (v : value) : bool :=
  match v with
  | Undefined | Str _ => true
  | _ => false
  end.

(** A field that is present: a string that is not empty. *)
Definition present (v : value) : bool :=
  match v with
  | Str (String _ _) => true
  | _ => false
  end.

Definition coords_text (r : row) : Prop :=
  text_or_absent (prop r "x") = true /\
  text_or_absent (prop r "y") = true /\
  text_or_absent (prop r "z") = true.

(** Validity in the specification's words: [x], [y] and [z] present and
    [x] parsing as a number, NaN being the only value that is none. *)
Definition valid_row (r : row) : bool :=
  present (prop r "x") && present (prop r "y") && present (prop r "z") &&
  negb (isNaN (parseFloat (prop r "x"))).

(** The same with "a finite number" taken to the letter. *)
Definition valid_row_finite (r : row) : bool :=
  present (prop r "x") && present (prop r "y") && present (prop r "z") &&
  isFinite (parseFloat (prop r "x")).

(** The rows of the named test cases. *)
Definition row_xyz (x y z : string) : row :=
  {[ "x" := Str x; "y" := Str y; "z" := Str z ]}.

(** [t] occurs in [s]. *)
Definition substring_of (t s : string) : Prop :=
  exists a b, s = a ++ t ++ b.

(** A field matches, in the specification's words: it is a string whose
    lower-case form contains the lower-case query. *)
Definition name_has (search : string) (v : value) : bool :=
  match v with
  | Str s => includes (toLowerCase s) (toLowerCase search)
  | _ => false
  end.

Definition search_hit (search : string) (r : row) : bool :=
  name_has search (prop r "proper") || name_has search (prop r "bayer") ||
  name_has search (prop r "gl").

(** The three searched fields are strings or absent. *)
Definition names_text (r : row) : Prop :=
  text_or_absent (prop r "proper") = true /\
  text_or_absent (prop r "bayer") = true /\
  text_or_absent (prop r "gl") = true.

(** Entries [3i], [3i+1] and [3i+2] of a buffer. *)
Definition triple_at (buf : list number) (i : nat)
  : option (number * number * number) :=
  match buf !! (i * 3 + 0)%nat, buf !! (i * 3 + 1)%nat,
        buf !! (i * 3 + 2)%nat with
  | Some a, Some b, Some c => Some (a, b, c)
  | _, _, _ => None
  end.

(** The three writes of one turn of the loop, on one buffer. *)
Definition write3 (buf : list number) (i : nat) (t : number * number * number)
  : list number :=
  let '(a, b, c) := t in
  <[(i * 3 + 2)%nat := c]> (<[(i * 3 + 1)%nat := b]> (<[(i * 3 + 0)%nat := a]> buf)).

(** The binary32 values of three numbers. *)
Definition fround3 (t : number * number * number)
  : number * number * number :=
  let '(a, b, c) := t in (fround a, fround b, fround c).

(** The state of the two buffers after the turns [0 .. k-1]. *)
Definition filled (stars : list row) (k : nat)
    (bufs : list number * list number) : Prop :=
  length bufs.1 = (length stars * 3)%nat /\
  length bufs.2 = (length stars * 3)%nat /\
  forall i s, (i < k)%nat -> stars !! i = Some s ->
    triple_at bufs.1 i =
      Some (fround3 (parseFloat (prop s "x"), parseFloat (prop s "y"),
                     parseFloat (prop s "z"))) /\
    triple_at bufs.2 i = Some (fround3 (color (prop s "ci"))).

(** The three rows of the end-to-end scenario, their values strings as
    the CSV parser delivers them. *)
Definition sirius : row :=
  {[ "x" := Str "1"; "y" := Str "0"; "z" := Str "0"; "ci" := Str "0.5";
     "proper" := Str "Sirius" ]}.

Definition vega : row :=
  {[ "x" := Str "0"; "y" := Str "1"; "z" := Str "0"; "proper" := Str "Vega" ]}.

Definition blank : row :=
  {[ "x" := Str ""; "y" := Str "0"; "z" := Str "0" ]}.

(** The events that are neither a click nor the close button. *)
Definition passive (e : event) : bool :=
  match e with
  | Complete _ | Change _ => true
  | Click _ | Close => false
  end.

(** The state of the persistence scenario: both stars loaded, no
    query, Sirius picked. *)
Definition sirius_picked : Home :=
  {| stars := [sirius; vega]; selected := Star sirius; search := "";
     loading := false |}.

(** The raycaster's contract: the intersections come nearest first. *)
Definition nearest_first (intersects : list intersection) : Prop :=
  StronglySorted (fun a b => (distance a <= distance b)%Q) intersects.

(** A value on which the method call of the search filter throws: truthy
    and not a string. *)
Definition throws (v : value) : bool :=
  ToBoolean v && match v with Str _ => false | _ => true end.

(** The rows on which the callback of the search filter throws: the
    first of [proper], [bayer] and [gl] that does not match is reached,
    and one reached throws. *)
Definition star_throws (search : string) (r : row) : bool :=
  throws (prop r "proper") ||
  negb (name_has search (prop r "proper")) &&
  (throws (prop r "bayer") ||
   negb (name_has search (prop r "bayer")) && throws (prop r "gl")).

(** The position and colour triples of one star. *)
Definition position_of (s : row) : number * number * number :=
  (parseFloat (prop s "x"), parseFloat (prop s "y"), parseFloat (prop s "z")).

Definition flat3 (ts : list (number * number * number)) : list number :=
  flat_map (fun '(a, b, c) => [a; b; c]) ts.

Definition is_complete (e : event) : bool :=
  match e with Complete _ => true | _ => false end.

(** A row that some completed load delivered and the row filter kept. *)
Definition loaded (es : list event) (r : row) : Prop :=
  ToBoolean (row_ok r) = true /\
  exists data, In (Complete data) es /\ In r data.

(** The three alternate names are strings or absent. *)
Definition alternates_text (r : row) : Prop :=
  text_or_absent (prop r "bayer") = true /\
  text_or_absent (prop r "gl") = true /\
  text_or_absent (prop r "hd") = true.

(** The four fields the loop reads. *)
Definition same_point (s s' : row) : Prop :=
  prop s "x" = prop s' "x" /\ prop s "y" = prop s' "y" /\
  prop s "z" = prop s' "z" /\ prop s "ci" = prop s' "ci".

Definition is_change (e : event) : bool :=
  match e with Change _ => true | _ => false end.

(** * Properties *)

(** ** [parseFloat] and the string methods on sample inputs *)

Example parseFloat_samples :
  parseFloat (Str "  -12.50e-1xyz") = Fin (-5 # 4) /\
  parseFloat (Str ".5") = Fin (1 # 2) /\
  parseFloat (Str "5.e2") = Fin 500 /\
  parseFloat (Str "1e") = Fin 1 /\
  parseFloat (Str "0x10") = Fin 0 /\
  parseFloat (Str "-0") = Fin 0 /\
  parseFloat (Str "-Infinityx") = NegInf /\
  parseFloat (Str "infinity") = NaN /\
  parseFloat (Str ".") = NaN /\
  parseFloat (Str "+-1") = NaN /\
  parseFloat (Str "abc") = NaN /\
  parseFloat (Str "") = NaN /\
  parseFloat Undefined = NaN.
Proof. repeat split. Qed.

Example rounding_samples :
  parseFloat (Str "0.1") = Fin (3602879701896397 # 36028797018963968) /\
  fround (parseFloat (Str "0.1")) = Fin (13421773 # 134217728) /\
  parseFloat (Str "9007199254740993") = Fin 9007199254740992 /\
  parseFloat (Str "1e999") = PosInf /\
  parseFloat (Str "-1e999") = NegInf /\
  parseFloat (Str "1e-999") = Fin 0 /\
  fround (parseFloat (Str "16777217")) = Fin 16777216 /\
  fround (parseFloat (Str "16777219")) = Fin 16777220 /\
  fround (parseFloat (Str "16777217.0000000001")) = Fin 16777216 /\
  fround (parseFloat (Str "1e39")) = PosInf /\
  fround (parseFloat (Str "1e-46")) = Fin 0 /\
  fround NaN = NaN.
Proof. repeat split; vm_compute; reflexivity. Qed.

Example toLowerCase_samples :
  toLowerCase "Sirius B-12" = "sirius b-12" /\
  includes "sirius" "sir" = true /\
  includes "sirius" "us" = true /\
  includes "sirius" "sis" = false /\
  includes "" "" = true.
Proof. repeat split. Qed.

(** ** What [parseFloat] accepts *)

Lemma read_digits_count (s : string) (acc : Z) (cnt : nat) :
  (cnt <= (read_digits s acc cnt).1.2)%nat.
Proof.
  revert acc cnt. induction s as [|c s IH]; intros acc cnt; cbn; [lia|].
  destruct (digit_of c) as [d|]; cbn; [|lia].
  specialize (IH (10 * acc + d)%Z (S cnt)). lia.
Qed.

Lemma read_digits_none (s : string) (acc : Z) (cnt : nat) :
  starts_digit s = false -> read_digits s acc cnt = (acc, cnt, s).
Proof.
  destruct s as [|c s]; cbn; [reflexivity|].
  now destruct (digit_of c).
Qed.

Lemma read_digits_some (s : string) (acc : Z) :
  starts_digit s = true -> (read_digits s acc 0).1.2 <> 0%nat.
Proof.
  destruct s as [|c s]; cbn; [discriminate|].
  destruct (digit_of c) as [d|]; [|discriminate]. intros _.
  pose proof (read_digits_count s (10 * acc + d)%Z 1). lia.
Qed.

Lemma round_binary_number (prec emin emax : Z) (q : Q) :
  isNaN (round_binary prec emin emax q) = false.
Proof.
  unfold round_binary. destruct (Qeq_bool q 0); [reflexivity|].
  match goal with |- context [Qle_bool ?a ?b] => destruct (Qle_bool a b) end;
    [now destruct (Qnum q <? 0)%Z | reflexivity].
Qed.

Lemma isNaN_fround (n : number) : isNaN (fround n) = isNaN n.
Proof. destruct n; try reflexivity. apply round_binary_number. Qed.

(** Forgets what a rounded literal is, but for its not being NaN. *)
Ltac forget_round64 :=
  repeat match goal with
  | |- context [round64 ?q] =>
      let H := fresh "Hr" in
      pose proof (round_binary_number 53 (-1074) 1023 q) as H;
      fold (round64 q) in H;
      destruct (round64 q); try discriminate H; clear H
  end.

Lemma unsigned_literal_numeric (s : string) :
  isNaN (StrUnsignedDecimalLiteral s) = false <-> starts_unsigned s = true.
Proof.
  unfold StrUnsignedDecimalLiteral, starts_unsigned.
  destruct (String.prefix "Infinity" s); [easy|]. cbn [orb].
  destruct (starts_digit s) eqn:Hd.
  - pose proof (read_digits_some s 0 Hd) as Hn.
    destruct (read_digits s 0 0) as [[i ni] r]. cbn in Hn.
    destruct ni as [|ni]; [congruence|]. cbn [orb].
    destruct r as [|c t]; [forget_round64; easy|].
    destruct (Ascii.eqb_spec c "."%char) as [->|Hc].
    + destruct (read_digits t i 0) as [[m nf] r']. forget_round64; easy.
    + destruct c as [[] [] [] [] [] [] [] []]; forget_round64; easy.
  - rewrite (read_digits_none s 0 0 Hd). cbn [orb].
    destruct s as [|c t]; [easy|].
    destruct (Ascii.eqb_spec c "."%char) as [->|Hc].
    + destruct (starts_digit t) eqn:Ht.
      * pose proof (read_digits_some t 0 Ht) as Hn.
        destruct (read_digits t 0 0) as [[m nf] r']. cbn in Hn.
        destruct nf; [congruence | forget_round64; easy].
      * rewrite (read_digits_none t 0 0 Ht). easy.
    + destruct c as [[] [] [] [] [] [] [] []]; easy.
Qed.

Lemma isNaN_neg (n : number) : isNaN (num_neg n) = isNaN n.
Proof. now destruct n. Qed.

(** A string parses as a number exactly when, after its leading white
    space and an optional sign, it starts with [Infinity], with a digit,
    or with a point and a digit. *)
Lemma parseFloat_numeric (s : string) :
  isNaN (parseFloat (Str s)) = false <-> starts_number (trim_start s) = true.
Proof.
  cbn [parseFloat]. unfold StrDecimalLiteral, starts_number.
  destruct (trim_start s) as [|c t]; [apply unsigned_literal_numeric|].
  destruct (Ascii.eqb_spec c "+"%char) as [->|Hp];
    [apply unsigned_literal_numeric|].
  destruct (Ascii.eqb_spec c "-"%char) as [->|Hm];
    [rewrite isNaN_neg; apply unsigned_literal_numeric|].
  destruct c as [[] [] [] [] [] [] [] []];
    try apply unsigned_literal_numeric; congruence.
Qed.

(** ** Numbers *)

Lemma Qle_bool_false (x y : Q) : Qle_bool x y = false -> (y < x)%Q.
Proof.
  intros H. apply Qnot_le_lt. intros Hle.
  apply Qle_bool_iff in Hle. congruence.
Qed.

(** Case analysis on the test of [Math_min] and [Math_max], leaving the
    order fact in the context. *)
Ltac case_Qle :=
  match goal with
  | |- context [Qle_bool ?x ?y] =>
      let H := fresh "Hle" in
      destruct (Qle_bool x y) eqn:H;
      [apply Qle_bool_iff in H | apply Qle_bool_false in H]
  end.

Lemma Math_min_Fin (a b : Q) :
  exists m, Math_min (Fin a) (Fin b) = Fin m /\ (m == Qmin a b)%Q.
Proof.
  cbn. case_Qle; eexists; split; try reflexivity.
  - symmetry. now apply Q.min_l.
  - symmetry. apply Q.min_r. lra.
Qed.

(** [n || 0] is never NaN, and is [n] itself unless [n] is NaN or zero. *)
Lemma num_or_zero_cases (n : number) :
  (isNaN n = true /\ num_or n (Fin 0) = Fin 0) \/
  (exists q, n = Fin q /\ (q == 0)%Q /\ num_or n (Fin 0) = Fin 0) \/
  (isNaN n = false /\ num_or n (Fin 0) = n).
Proof.
  destruct n as [| | |q]; cbn; auto.
  unfold num_or; cbn. destruct (Qeq_bool q 0) eqn:E; cbn.
  - right; left. exists q. apply Qeq_bool_iff in E. auto.
  - auto.
Qed.

(** What [Math.max(-0.4, Math.min(2, n))] is. *)
Lemma max_min_clamp (n : number) :
  isNaN n = false ->
  exists c, Math_max (Fin (-2 # 5)) (Math_min (Fin 2) n) = Fin c /\
            (c == clamp n (-2 # 5) 2)%Q /\ (-2 # 5 <= c <= 2)%Q.
Proof.
  destruct n as [| | |q]; cbn; intros Hn; try discriminate.
  - exists 2%Q. repeat split; lra.
  - exists (-2 # 5)%Q. repeat split; lra.
  - case_Qle; cbn.
    + exists 2%Q. split; [reflexivity|].
      rewrite (Q.min_l 2 q) by assumption.
      rewrite Q.max_r by lra. lra.
    + case_Qle; eexists; (split; [reflexivity|]);
        rewrite (Q.min_r 2 q) by lra.
      * rewrite Q.max_r by lra. lra.
      * rewrite Q.max_l by lra. lra.
Qed.

Lemma clamp_ci_range (ci : value) :
  exists c, clamp_ci ci = Fin c /\ (-2 # 5 <= c <= 2)%Q.
Proof.
  unfold clamp_ci.
  destruct (max_min_clamp (num_or (parseFloat ci) (Fin 0))) as (c & Hc & _ & Hr).
  - destruct (num_or_zero_cases (parseFloat ci)) as [[_ ->]|[(q & _ & _ & ->)|[H ->]]];
      auto.
  - eauto.
Qed.

(** The channels the code computes from a finite [c] are the
    specification's. *)
Lemma channels_of_clamped (c : Q) :
  exists r g b,
    (Math_min (Fin 1) (num_sub (Fin (3 # 2)) (Fin c)),
     Math_min (Fin 1)
       (num_sub (Fin (6 # 5)) (Math_abs (num_sub (Fin (2 # 5)) (Fin c)))),
     Math_min (Fin 1) (num_mul (Fin (9 # 5)) (Fin c)))
    = (Fin r, Fin g, Fin b) /\
    (r == red_of c)%Q /\ (g == green_of c)%Q /\ (b == blue_of c)%Q.
Proof.
  cbn [num_sub num_mul Math_abs].
  destruct (Math_min_Fin 1 (Qred ((3 # 2) - c))) as (r & -> & Hr).
  destruct (Math_min_Fin 1
    (Qred ((6 # 5) - Qred (Qabs (Qred ((2 # 5) - c)))))) as (g & -> & Hg).
  destruct (Math_min_Fin 1 (Qred ((9 # 5) * c))) as (b & -> & Hb).
  exists r, g, b. split; [reflexivity|].
  unfold red_of, green_of, blue_of.
  rewrite Hr, Hg, Hb. rewrite !Qred_correct. repeat split; reflexivity.
Qed.

Lemma red_of_range (c : Q) :
  (-2 # 5 <= c <= 2)%Q -> (-1 # 2 <= red_of c <= 1)%Q.
Proof.
  intros Hc. unfold red_of. split.
  - apply Q.min_glb; lra.
  - apply Q.le_min_l.
Qed.

Lemma green_of_range (c : Q) :
  (-2 # 5 <= c <= 2)%Q -> (-2 # 5 <= green_of c <= 1)%Q.
Proof.
  intros Hc. unfold green_of. split.
  - apply Q.min_glb; [lra|].
    apply (Qabs_case ((2 # 5) - c)); intros; lra.
  - apply Q.le_min_l.
Qed.

Lemma blue_of_range (c : Q) :
  (-2 # 5 <= c <= 2)%Q -> (-18 # 25 <= blue_of c <= 1)%Q.
Proof.
  intros Hc. unfold blue_of. split.
  - apply Q.min_glb; lra.
  - apply Q.le_min_l.
Qed.

Create HintDb channels.
#[local] Hint Resolve red_of_range green_of_range blue_of_range : channels.

(** The colour of a truthy [ci] is the specification's formula at
    [clamp_ci ci]. *)
Lemma color_truthy (ci : value) :
  ToBoolean ci = true ->
  exists c r g b,
    clamp_ci ci = Fin c /\ (-2 # 5 <= c <= 2)%Q /\
    color ci = (Fin r, Fin g, Fin b) /\
    (r == red_of c)%Q /\ (g == green_of c)%Q /\ (b == blue_of c)%Q.
Proof.
  intros Ht. destruct (clamp_ci_range ci) as (c & Hc & Hr).
  destruct (channels_of_clamped c) as (r & g & b & He & H).
  exists c, r, g, b. repeat split; try tauto.
  unfold color. rewrite Ht, Hc. exact He.
Qed.

(** ** The star colour *)

(** Whatever parses as a number is truthy, a number-typed zero apart. *)
Lemma numeric_truthy (ci : value) :
  zero_number ci = false -> isNaN (parseFloat ci) = false ->
  ToBoolean ci = true.
Proof.
  destruct ci as [|b|[| | |q]|[|a s]]; cbn; try discriminate; auto.
  intros ->. reflexivity.
Qed.



Lemma below_truthy (ci : value) (q : Q) :
  (q <= 0)%Q -> below (parseFloat ci) q -> ToBoolean ci = true.
Proof.
  intros Hq Hb. apply numeric_truthy.
  - destruct ci as [|b|[| | |x]|s]; cbn in *; try tauto.
    destruct (Qeq_bool x 0) eqn:E; [|reflexivity].
    apply Qeq_bool_iff in E. lra.
  - destruct (parseFloat ci); cbn in *; tauto.
Qed.

Lemma above_truthy (ci : value) (q : Q) :
  (0 <= q)%Q -> above (parseFloat ci) q -> ToBoolean ci = true.
Proof.
  intros Hq Hb. apply numeric_truthy.
  - destruct ci as [|b|[| | |x]|s]; cbn in *; try tauto.
    destruct (Qeq_bool x 0) eqn:E; [|reflexivity].
    apply Qeq_bool_iff in E. lra.
  - destruct (parseFloat ci); cbn in *; tauto.
Qed.


(** C2, as the code has it.  For every value of [ci] (a string, a number,
    NaN, absent) the colour is a triple of finite numbers, each at most
    1; below, the bound is not 0: red and green are at least -0.5 and
    blue at least -0.75, with room for the rounding of the arithmetic. *)
Theorem color_channel_bounds (ci : value) :
  exists r g b,
    color ci = (Fin r, Fin g, Fin b) /\
    (-1 # 2 <= r <= 1)%Q /\ (-1 # 2 <= g <= 1)%Q /\ (-3 # 4 <= b <= 1)%Q.
Proof.
  destruct (ToBoolean ci) eqn:Ht.
  - destruct (color_truthy ci Ht) as (c & r & g & b & _ & Hc & -> & Hr & Hg & Hb).
    exists r, g, b. split; [reflexivity|].
    pose proof (red_of_range c Hc). pose proof (green_of_range c Hc).
    pose proof (blue_of_range c Hc).
    rewrite Hr, Hg, Hb. lra.
  - exists 1%Q, 1%Q, 1%Q. unfold color. rewrite Ht.
    split; [reflexivity|]. lra.
Qed.

(** C2 fails as stated: at [ci = "2"] red is 1.5 - 2 = -0.5. *)
Lemma color_leaves_unit_interval :
  (color (Str "2")).1.1 = Fin (-1 # 2) /\
  ~ unit_triple (color (Str "2")).
Proof.
  assert (E : color (Str "2") = (Fin (-1 # 2), Fin (-2 # 5), Fin 1))
    by reflexivity.
  rewrite E. split; [reflexivity|].
  intros ([H _] & _). lra.
Qed.







(** ** The row filter *)

Lemma truthy_text (v : value) :
  text_or_absent v = true -> ToBoolean v = present v.
Proof. destruct v as [|b|n|[|a s]]; cbn; congruence. Qed.

Lemma row_ok_truthy (r : row) :
  ToBoolean (row_ok r) =
  ToBoolean (prop r "x") && ToBoolean (prop r "y") && ToBoolean (prop r "z") &&
  negb (isNaN (parseFloat (prop r "x"))).
Proof.
  unfold row_ok, js_and.
  destruct (ToBoolean (prop r "x")) eqn:Hx;
    [destruct (ToBoolean (prop r "y")) eqn:Hy;
       [destruct (ToBoolean (prop r "z")) eqn:Hz|]|];
    cbn; rewrite ?Hx, ?Hy, ?Hz; reflexivity.
Qed.

Lemma row_ok_valid (r : row) :
  coords_text r -> ToBoolean (row_ok r) = valid_row r.
Proof.
  intros (Hx & Hy & Hz). rewrite row_ok_truthy. unfold valid_row.
  now rewrite !truthy_text.
Qed.

Lemma filter_sublist {A} (f : A -> bool) (l : list A) :
  sublist (List.filter f l) l.
Proof.
  induction l as [|a l IH]; cbn; [constructor|].
  destruct (f a); now constructor.
Qed.

Lemma valid_row_shape (r : row) :
  valid_row r = true <->
  present (prop r "y") = true /\ present (prop r "z") = true /\
  exists s, prop r "x" = Str s /\ starts_number (trim_start s) = true.
Proof.
  unfold valid_row. rewrite !andb_true_iff, negb_true_iff. split.
  - intros [[[Hx Hy] Hz] Hn]. repeat split; try assumption.
    destruct (prop r "x") as [|b|n|s]; try discriminate.
    exists s. split; [reflexivity|]. now apply parseFloat_numeric.
  - intros (Hy & Hz & s & Hs & Hn). rewrite Hs.
    apply parseFloat_numeric in Hn as Hp. repeat split; try assumption.
    destruct s; [discriminate | reflexivity].
Qed.

(** C1, as the code has it.  On rows whose coordinates are strings or
    absent, the rows kept are exactly those with [x], [y] and [z] present
    and [x] parsing as a number other than NaN, in input order; [y] and
    [z] need not parse.  Such an [x] is a string that, after leading white
    space and an optional sign, starts with [Infinity], a digit, or a
    point and a digit. *)
Theorem filtered_valid_rows (data : list row) :
  Forall coords_text data ->
  filtered data = List.filter valid_row data /\
  sublist (filtered data) data /\
  (forall r, In r (filtered data) <->
     In r data /\
     present (prop r "y") = true /\ present (prop r "z") = true /\
     exists s, prop r "x" = Str s /\ starts_number (trim_start s) = true) /\
  filtered [row_xyz "1" "abc" "1"] = [row_xyz "1" "abc" "1"] /\
  filtered [row_xyz "abc" "1" "1"] = [] /\
  filtered [row_xyz "1" "" "1"] = [].
Proof.
  intros Hd.
  assert (E : filtered data = List.filter valid_row data).
  { unfold filtered. apply List.filter_ext_in. intros r Hr.
    apply row_ok_valid. rewrite Forall_forall in Hd. apply Hd.
    now apply list_elem_of_In. }
  split; [exact E|]. split; [apply filter_sublist|].
  split; [|repeat split; reflexivity].
  intros r. rewrite E, List.filter_In, valid_row_shape. reflexivity.
Qed.

Lemma filtered_valid_rows_witness :
  filtered [row_xyz "1" "abc" "1"; row_xyz "" "2" "3"; row_xyz "4e1" "5" "x"]
  = List.filter valid_row
      [row_xyz "1" "abc" "1"; row_xyz "" "2" "3"; row_xyz "4e1" "5" "x"].
Proof.
  apply (filtered_valid_rows
           [row_xyz "1" "abc" "1"; row_xyz "" "2" "3"; row_xyz "4e1" "5" "x"]).
  repeat constructor.
Defined.

(** C1 fails as stated: the row with [x = "Infinity"] is kept, and its
    [x] does not parse as a finite number. *)
Lemma filtered_keeps_infinite_x :
  filtered [row_xyz "Infinity" "1" "1"] = [row_xyz "Infinity" "1" "1"] /\
  isFinite (parseFloat (prop (row_xyz "Infinity" "1" "1") "x")) = false /\
  filtered [row_xyz "Infinity" "1" "1"]
  <> List.filter valid_row_finite [row_xyz "Infinity" "1" "1"].
Proof. repeat split. discriminate. Qed.

(** C10.  The presence test is truthiness: a row whose [x], [y] or [z]
    is falsy is dropped; the empty string is falsy and so is the number
    0, which is a finite number and not NaN.  The string ["0"] is truthy,
    and a row of such coordinates is kept. *)
Theorem falsy_coordinate_dropped (data : list row) (r : row) (k : string) :
  (In k ["x"; "y"; "z"] -> ToBoolean (prop r k) = false ->
   ~ In r (filtered data)) /\
  ToBoolean (Str "") = false /\
  ToBoolean (Num (Fin 0)) = false /\
  isFinite (parseFloat (Num (Fin 0))) = true /\
  isNaN (parseFloat (Num (Fin 0))) = false /\
  filtered [row_xyz "0" "0" "0"] = [row_xyz "0" "0" "0"].
Proof.
  split; [|repeat split].
  intros Hk Hf Hr. unfold filtered in Hr.
  apply List.filter_In in Hr as [_ Hr]. rewrite row_ok_truthy in Hr.
  cbn in Hk. destruct Hk as [<-|[<-|[<-|[]]]]; rewrite Hf in Hr;
    cbn in Hr; try discriminate.
  - destruct (ToBoolean (prop r "x")); discriminate.
  - destruct (ToBoolean (prop r "x")), (ToBoolean (prop r "y")); discriminate.
Qed.

Lemma falsy_coordinate_dropped_witness :
  ~ In (<["y" := Num (Fin 0)]> (row_xyz "1" "2" "3"))
       (filtered [row_xyz "4" "5" "6";
                  <["y" := Num (Fin 0)]> (row_xyz "1" "2" "3")]).
Proof.
  apply (falsy_coordinate_dropped _ _ "y"); [cbn; tauto | reflexivity].
Defined.

(** ** The search filter *)

Lemma prefix_spec (t s : string) :
  String.prefix t s = true <-> exists b, s = t ++ b.
Proof.
  revert s. induction t as [|c t IH]; intros [|d s]; simpl.
  - split; [now exists "" | reflexivity].
  - split; [now exists (String d s) | reflexivity].
  - split; [discriminate | intros [b Hb]; discriminate].
  - destruct (ascii_dec c d) as [->|Hne].
    + rewrite IH. split; intros [b Hb]; exists b.
      * now rewrite Hb.
      * now injection Hb.
    + split; [discriminate|]. intros [b Hb]. injection Hb as E _. congruence.
Qed.

Lemma includes_spec (s t : string) :
  includes s t = true <-> substring_of t s.
Proof.
  unfold substring_of. induction s as [|c s IH]; cbn [includes].
  - rewrite orb_false_r, prefix_spec. split.
    + intros [b Hb]. exists "", b. exact Hb.
    + intros (a & b & H). destruct a; [eauto | discriminate].
  - rewrite orb_true_iff, prefix_spec, IH. split.
    + intros [[b Hb]|(a & b & H)].
      * exists "", b. exact Hb.
      * exists (String c a), b. now rewrite H.
    + intros ([|d a] & b & H).
      * left. eauto.
      * right. injection H as _ H. eauto.
Qed.

Lemma toLowerCase_length (s : string) :
  String.length (toLowerCase s) = String.length s.
Proof. induction s; cbn; congruence. Qed.

Lemma includes_empty (t : string) :
  (1 <= String.length t)%nat -> includes "" t = false.
Proof. destruct t; cbn; [lia | reflexivity]. Qed.

Section LongQuery.

Variable search : string.
Hypothesis search_not_empty : (1 <= String.length search)%nat.

Lemma field_match_text (v : value) :
  text_or_absent v = true ->
  exists w, field_match search v = Some w /\
            ToBoolean w = name_has search v.
Proof.
  intros Hv. unfold field_match.
  destruct v as [|b|n|[|a s]]; try discriminate; cbn; eauto.
  eexists; split; [reflexivity|]. cbn. symmetry.
  apply includes_empty. now rewrite toLowerCase_length.
Qed.

Lemma star_match_text (r : row) :
  names_text r ->
  exists w, star_match search r = Some w /\
            ToBoolean w = search_hit search r.
Proof.
  intros (Hp & Hb & Hg). unfold star_match, search_hit.
  destruct (field_match_text _ Hp) as (a & -> & <-).
  destruct (field_match_text _ Hb) as (b & -> & <-).
  destruct (field_match_text _ Hg) as (c & -> & <-).
  cbn. destruct (ToBoolean a) eqn:Ha; cbn; [eauto|].
  destruct (ToBoolean b) eqn:Hb'; cbn; eauto.
Qed.

End LongQuery.

(** A callback that never throws makes [array_filter] the plain filter
    by the truthiness of its value. *)
Lemma array_filter_total (f : row -> option value) (g : row -> bool)
    (l : list row) :
  Forall (fun r => exists w, f r = Some w /\ ToBoolean w = g r) l ->
  array_filter f l = Some (List.filter g l).
Proof.
  induction 1 as [|r l (w & Hw & Hg) _ IH]; cbn; [reflexivity|].
  rewrite Hw, IH. cbn. rewrite Hg. now destruct (g r).
Qed.

Lemma search_hit_spec (search : string) (r : row) :
  search_hit search r = true <->
  exists k s, In k ["proper"; "bayer"; "gl"] /\ prop r k = Str s /\
              substring_of (toLowerCase search) (toLowerCase s).
Proof.
  unfold search_hit. rewrite !orb_true_iff. split.
  - assert (H : forall k, name_has search (prop r k) = true ->
                exists s, prop r k = Str s /\
                  substring_of (toLowerCase search) (toLowerCase s)).
    { intros k. unfold name_has. destruct (prop r k); try discriminate.
      rewrite includes_spec. eauto. }
    intros [[Hk|Hk]|Hk]; apply H in Hk as (s & Hs & Hi);
      eexists _, s; (split; [|eauto]); cbn; tauto.
  - intros (k & s & Hk & Hs & Hi). apply includes_spec in Hi.
    cbn in Hk. destruct Hk as [<-|[<-|[<-|[]]]]; rewrite Hs; cbn; auto.
Qed.

(** C5.  A query of length at most 1 returns the input as it is.  A
    longer one, the searched fields being strings or absent, returns
    without error and in input order exactly the records one of whose
    [proper], [bayer] and [gl] is a string that contains the query, both
    in lower case; that may be no record at all. *)
Theorem filteredStars_spec (stars : list row) (search : string) :
  ((String.length search <= 1)%nat -> filteredStars stars search = Some stars) /\
  ((2 <= String.length search)%nat -> Forall names_text stars ->
   filteredStars stars search = Some (List.filter (search_hit search) stars) /\
   sublist (List.filter (search_hit search) stars) stars /\
   forall r, In r (List.filter (search_hit search) stars) <->
     In r stars /\
     exists k s, In k ["proper"; "bayer"; "gl"] /\ prop r k = Str s /\
                 substring_of (toLowerCase search) (toLowerCase s)).
Proof.
  unfold filteredStars. split.
  - intros Hl.
    destruct (Nat.ltb_spec 1 (String.length search)); [lia | reflexivity].
  - intros Hl Hn.
    destruct (Nat.ltb_spec 1 (String.length search)); [|lia].
    split; [|split].
    + apply array_filter_total. eapply Forall_impl; [exact Hn|].
      intros r Hr. apply star_match_text; [lia | exact Hr].
    + apply filter_sublist.
    + intros r. rewrite List.filter_In, search_hit_spec. reflexivity.
Qed.

Lemma filteredStars_throws_on_number :
  filteredStars [{[ "proper" := Num (Fin 5) ]}] "ab" = None.
Proof. reflexivity. Qed.

(** ** The buffers *)

Lemma write3_length (buf : list number) i t :
  length (write3 buf i t) = length buf.
Proof. destruct t as [[a b] c]. unfold write3. now rewrite !length_insert. Qed.

Lemma write3_lookup (buf : list number) i a b c :
  (i * 3 + 2 < length buf)%nat ->
  write3 buf i (a, b, c) !! (i * 3 + 0)%nat = Some a /\
  write3 buf i (a, b, c) !! (i * 3 + 1)%nat = Some b /\
  write3 buf i (a, b, c) !! (i * 3 + 2)%nat = Some c.
Proof.
  intros Hi. unfold write3. repeat split.
  - rewrite !list_lookup_insert_ne by lia.
    apply list_lookup_insert_eq. lia.
  - rewrite list_lookup_insert_ne by lia.
    apply list_lookup_insert_eq. rewrite length_insert. lia.
  - apply list_lookup_insert_eq. rewrite !length_insert. lia.
Qed.

Lemma write3_lookup_other (buf : list number) i j m t :
  i <> j -> (m < 3)%nat ->
  write3 buf i t !! (j * 3 + m)%nat = buf !! (j * 3 + m)%nat.
Proof.
  destruct t as [[a b] c]. intros Hij Hm. unfold write3.
  now rewrite !list_lookup_insert_ne by lia.
Qed.

Lemma write3_same (buf : list number) i t :
  (i * 3 + 2 < length buf)%nat -> triple_at (write3 buf i t) i = Some t.
Proof.
  destruct t as [[a b] c]. intros Hi.
  destruct (write3_lookup buf i a b c Hi) as (Ha & Hb & Hc).
  unfold triple_at. now rewrite Ha, Hb, Hc.
Qed.

Lemma write3_other (buf : list number) i j t :
  i <> j -> triple_at (write3 buf i t) j = triple_at buf j.
Proof.
  intros Hij. unfold triple_at.
  now rewrite !(write3_lookup_other buf i j) by (assumption || lia).
Qed.

Lemma fill_star_write3 (stars : list row) bufs i s :
  stars !! i = Some s ->
  fill_star stars bufs i =
  (write3 bufs.1 i (fround3 (parseFloat (prop s "x"), parseFloat (prop s "y"),
                              parseFloat (prop s "z"))),
   write3 bufs.2 i (fround3 (color (prop s "ci")))).
Proof.
  intros Hs. unfold fill_star. rewrite Hs. destruct bufs as [p c]. cbn.
  now destruct (color (prop s "ci")) as [[cr cg] cb].
Qed.

Lemma filled_step (stars : list row) k bufs :
  (k < length stars)%nat -> filled stars k bufs ->
  filled stars (S k) (fill_star stars bufs k).
Proof.
  intros Hk (Hp & Hc & Hi).
  destruct (lookup_lt_is_Some_2 stars k Hk) as [sk Hsk].
  rewrite (fill_star_write3 _ _ _ _ Hsk). unfold filled; cbn [fst snd].
  rewrite !write3_length. repeat split; try assumption.
  - destruct (decide (i = k)) as [->|Hne].
    + rewrite write3_same by lia. congruence.
    + rewrite write3_other by congruence. apply Hi; [lia | assumption].
  - destruct (decide (i = k)) as [->|Hne].
    + rewrite write3_same by lia. congruence.
    + rewrite write3_other by congruence. apply Hi; [lia | assumption].
Qed.

Lemma filled_loop (stars : list row) k :
  (k <= length stars)%nat ->
  filled stars k
    (foldl (fill_star stars)
       (Float32Array (length stars * 3), Float32Array (length stars * 3))
       (seq 0 k)).
Proof.
  induction k as [|k IH]; intros Hk.
  - cbn. unfold filled, Float32Array; cbn. rewrite length_replicate.
    repeat split; intros; lia.
  - rewrite seq_S, foldl_app. cbn. apply filled_step; [lia|].
    apply IH. lia.
Qed.

(** C6, as the code has it.  For [n] stars both buffers have length
    [3n]; entries [3i], [3i+1] and [3i+2] of [positions] are [parseFloat]
    of the [x], [y] and [z] of star [i], not moved or scaled, and those of
    [colors] are the colour of its [ci], each as the binary32 value a
    [Float32Array] slot holds of it. *)
Theorem buffers_aligned (stars : list row) :
  length (buffers stars).1 = (3 * length stars)%nat /\
  length (buffers stars).2 = (3 * length stars)%nat /\
  forall i s, stars !! i = Some s ->
    triple_at (buffers stars).1 i =
      Some (fround (parseFloat (prop s "x")), fround (parseFloat (prop s "y")),
            fround (parseFloat (prop s "z"))) /\
    triple_at (buffers stars).2 i = Some (fround3 (color (prop s "ci"))).
Proof.
  destruct (filled_loop stars (length stars) (le_n _)) as (Hp & Hc & Hi).
  fold (buffers stars) in Hp, Hc, Hi.
  repeat split; try lia; apply Hi; eauto using lookup_lt_Some.
Qed.

(** C6 fails as stated: [x = "16777217"] parses as 16777217 and the slot
    holds 16777216; [x = "1e39"] parses as a finite number and the slot
    holds Infinity. *)
Lemma slot_is_not_parsed_value :
  parseFloat (Str "16777217") = Fin 16777217 /\
  (buffers [row_xyz "16777217" "0" "0"]).1 !! 0%nat = Some (Fin 16777216) /\
  isFinite (parseFloat (Str "1e39")) = true /\
  (buffers [row_xyz "1e39" "0" "0"]).1 !! 0%nat = Some PosInf /\
  triple_at (buffers [row_xyz "16777217" "0" "0"]).1 0
  <> Some (parseFloat (Str "16777217"), parseFloat (Str "0"),
           parseFloat (Str "0")).
Proof.
  repeat split; try (vm_compute; reflexivity).
  vm_compute. discriminate.
Qed.

(** ** The end-to-end scenario *)

Lemma sirius_vega_names : Forall names_text [sirius; vega].
Proof. repeat constructor. Qed.

(** C7.  With the three rows as the CSV parser delivers them, the row
    filter keeps Sirius and Vega, the query ["sir"] keeps Sirius alone,
    and the buffers of that one star are [[1, 0, 0]] and the colour of
    0.5, which is (1, 1, 0.9), as the [Float32Array] holds it: 1, 1 and
    the binary32 value nearest to 0.9. *)
Theorem scenario_text_rows :
  filtered [sirius; vega; blank] = [sirius; vega] /\
  filteredStars [sirius; vega] "sir" = Some [sirius] /\
  (buffers [sirius]).1 = [Fin 1; Fin 0; Fin 0] /\
  color (prop sirius "ci") = color (Num (Fin (1 # 2))) /\
  color (Num (Fin (1 # 2))) = (Fin 1, Fin 1, Fin (9 # 10)) /\
  triple_at (buffers [sirius]).2 0
  = Some (fround3 (color (Num (Fin (1 # 2))))) /\
  (buffers [sirius]).2 = [Fin 1; Fin 1; Fin (7549747 # 8388608)] /\
  StarField [sirius]
  = Some ([Fin 1; Fin 0; Fin 0], [Fin 1; Fin 1; Fin (7549747 # 8388608)]).
Proof. repeat split; vm_compute; reflexivity. Qed.

Lemma filteredStars_spec_witness :
  filteredStars [sirius; vega] "s" = Some [sirius; vega] /\
  filteredStars [sirius; vega] "SIR"
  = Some (List.filter (search_hit "SIR") [sirius; vega]) /\
  filteredStars [sirius; vega] "zz"
  = Some (List.filter (search_hit "zz") [sirius; vega]).
Proof.
  split; [|split].
  - apply (filteredStars_spec [sirius; vega] "s"). cbn; lia.
  - apply (filteredStars_spec [sirius; vega] "SIR");
      [cbn; lia | exact sirius_vega_names].
  - apply (filteredStars_spec [sirius; vega] "zz");
      [cbn; lia | exact sirius_vega_names].
Defined.

Lemma buffers_aligned_witness :
  triple_at (buffers [sirius; vega]).1 1 = Some (Fin 0, Fin 1, Fin 0) /\
  triple_at (buffers [sirius; vega]).2 1 = Some white.
Proof.
  exact (proj2 (proj2 (buffers_aligned [sirius; vega])) 1%nat vega eq_refl).
Defined.

(** ** Selection *)

Lemma step_passive (st : Home) (e : event) :
  passive e = true -> selected (step st e) = selected st.
Proof. destruct e; cbn; congruence. Qed.

Lemma run_passive (es : list event) (st : Home) :
  Forall (fun e => passive e = true) es ->
  selected (run st es) = selected st.
Proof.
  intros H. revert st. induction H as [|e es He _ IH]; intros st; cbn.
  - reflexivity.
  - unfold run in IH. rewrite IH. now apply step_passive.
Qed.

(** What a click does, by cases on what is shown and what was hit. *)
Lemma step_click (st : Home) (intersects : list intersection) :
  (step st (Click intersects) = st) \/
  (exists shown i,
     filteredStars (stars st) (search st) = Some shown /\ shown <> [] /\
     handleClick intersects = Some i /\
     step st (Click intersects) = onStarClick st shown i).
Proof.
  cbn. destruct (filteredStars (stars st) (search st)) as [[|s shown]|]; auto.
  destruct (handleClick intersects) as [i|]; auto.
  right. exists (s :: shown), i. repeat split. discriminate.
Qed.

(** C8.  [selected] is left as it is by a change of the query and by the
    completion of the load, also over any run of such events; the close
    button sets it to [null]; a click that hits a point while stars are
    shown sets it to the element of the filtered array at the reported
    index, the picked record when the index is within the array; and an
    event that changes [selected] is the close button or such a click. *)
Theorem selected_changes_on_pick_or_close (st : Home) (e : event)
    (es : list event) :
  (forall text, selected (step st (Change text)) = selected st) /\
  (forall data, selected (step st (Complete data)) = selected st) /\
  (Forall (fun e => passive e = true) es ->
   selected (run st es) = selected st) /\
  selected (step st Close) = Null /\
  (forall intersects shown i,
     filteredStars (stars st) (search st) = Some shown -> shown <> [] ->
     handleClick intersects = Some i ->
     selected (step st (Click intersects)) = element shown i /\
     forall r, shown !! i = Some r ->
               selected (step st (Click intersects)) = Star r) /\
  (selected (step st e) <> selected st ->
   e = Close \/
   exists intersects shown i,
     e = Click intersects /\
     filteredStars (stars st) (search st) = Some shown /\ shown <> [] /\
     handleClick intersects = Some i /\
     selected (step st e) = element shown i).
Proof.
  split; [reflexivity|]. split; [reflexivity|].
  split; [apply run_passive|]. split; [reflexivity|]. split.
  - intros intersects shown i Hf Hne Hc.
    assert (E : selected (step st (Click intersects)) = element shown i).
    { cbn. rewrite Hf, Hc. destruct shown; [congruence | reflexivity]. }
    split; [exact E|]. intros r Hr. rewrite E. unfold element. now rewrite Hr.
  - intros Hne. destruct e as [data|text|intersects|];
      [now cbn in Hne | now cbn in Hne | | now left].
    right. destruct (step_click st intersects)
      as [E|(shown & i & Hs & Hn & Hc & E)].
    + rewrite E in Hne. congruence.
    + exists intersects, shown, i. rewrite E. auto.
Qed.

(** Vega is picked by a click, the query then filters it out and the load
    completes once more: Vega stays selected, until the close button. *)
Lemma selected_changes_on_pick_or_close_witness :
  selected (step sirius_picked (Click [ {| distance := 2; index := 1 |} ]))
  = Star vega /\
  filteredStars [sirius; vega] "sir" = Some [sirius] /\
  selected (run (step sirius_picked
                   (Click [ {| distance := 2; index := 1 |} ]))
                [Change "s"; Change "sir"; Complete [sirius; vega]])
  = Star vega /\
  (Close = Close \/
   exists intersects shown i,
     Close = Click intersects /\
     filteredStars (stars sirius_picked) (search sirius_picked) = Some shown /\
     shown <> [] /\ handleClick intersects = Some i /\
     selected (step sirius_picked Close) = element shown i).
Proof.
  pose proof (selected_changes_on_pick_or_close sirius_picked Close [])
    as (_ & _ & _ & _ & Hpick & Hchg).
  pose proof (selected_changes_on_pick_or_close
                (step sirius_picked (Click [ {| distance := 2; index := 1 |} ]))
                Close [Change "s"; Change "sir"; Complete [sirius; vega]])
    as (_ & _ & Hrun & _).
  split; [|split; [reflexivity|split]].
  - destruct (Hpick [ {| distance := 2; index := 1 |} ] [sirius; vega] 1%nat)
      as [_ Hr]; [reflexivity | discriminate | reflexivity |].
    apply Hr. reflexivity.
  - rewrite Hrun; [|repeat constructor].
    destruct (Hpick [ {| distance := 2; index := 1 |} ] [sirius; vega] 1%nat)
      as [_ Hr]; [reflexivity | discriminate | reflexivity |].
    apply Hr. reflexivity.
  - apply Hchg. discriminate.
Defined.

(** ** Picking *)

(** C9.  A click with no intersection reports nothing and leaves the
    state as it is, and so does any click while nothing is shown, as
    during loading.  A click with intersections reports the index of the
    first one, the nearest when the list comes nearest first, and
    [selected] becomes the element of the filtered array at that index. *)
Theorem click_picks_first (st : Home) (intersects : list intersection) :
  (intersects = [] ->
   handleClick intersects = None /\ step st (Click intersects) = st) /\
  (filteredStars (stars st) (search st) = Some [] ->
   step st (Click intersects) = st) /\
  step initial (Click intersects) = initial /\
  (forall hit rest, intersects = hit :: rest ->
     handleClick intersects = Some (index hit) /\
     (nearest_first intersects ->
      forall h, In h intersects -> (distance hit <= distance h)%Q) /\
     (forall shown,
        filteredStars (stars st) (search st) = Some shown -> shown <> [] ->
        selected (step st (Click intersects)) = element shown (index hit) /\
        forall r, shown !! index hit = Some r ->
                  selected (step st (Click intersects)) = Star r)).
Proof.
  split; [|split; [|split]].
  - intros ->. split; [reflexivity|]. cbn.
    now destruct (filteredStars (stars st) (search st)) as [[|s shown]|].
  - intros E. cbn. now rewrite E.
  - reflexivity.
  - intros hit rest ->. split; [reflexivity|]. split.
    + intros Hs h [<-|Hh]; [lra|].
      apply StronglySorted_inv in Hs as [_ Hs].
      rewrite List.Forall_forall in Hs. now apply Hs.
    + intros shown E Hne. cbn. rewrite E.
      destruct shown as [|s shown]; [congruence|]. cbn.
      split; [reflexivity|]. intros r Hr. unfold element. now rewrite Hr.
Qed.

Lemma click_picks_first_witness :
  selected (step sirius_picked
              (Click [ {| distance := 3; index := 1 |};
                       {| distance := 7 # 2; index := 0 |} ]))
  = Star vega /\
  (3 <= 7 # 2)%Q /\
  step sirius_picked (Click []) = sirius_picked.
Proof.
  pose proof (click_picks_first sirius_picked
    [ {| distance := 3; index := 1 |}; {| distance := 7 # 2; index := 0 |} ])
    as (_ & _ & _ & H).
  destruct (H _ _ eq_refl) as (_ & Hd & Hs).
  split; [|split].
  - destruct (Hs [sirius; vega] eq_refl) as [_ Hr]; [discriminate|].
    apply Hr. reflexivity.
  - apply (Hd (ltac:(repeat constructor; cbn; lra))
              {| distance := 7 # 2; index := 0 |}).
    cbn; tauto.
  - exact (proj2 (proj1 (click_picks_first sirius_picked []) eq_refl)).
Defined.

(** * Further properties of the page *)

(** ** The search filter: errors, case, narrowing *)

Lemma toLowerCase_app (a b : string) :
  toLowerCase (a ++ b) = toLowerCase a ++ toLowerCase b.
Proof. induction a as [|c a IH]; simpl; [reflexivity | now rewrite IH]. Qed.

Lemma string_app_assoc (a b c : string) : (a ++ b) ++ c = a ++ b ++ c.
Proof.
  induction a as [|x a IH]; [reflexivity|].
  change (String x ((a ++ b) ++ c) = String x (a ++ b ++ c)).
  now rewrite IH.
Qed.

Lemma substring_of_trans (a b c : string) :
  substring_of a b -> substring_of b c -> substring_of a c.
Proof.
  intros (p & q & ->) (p' & q' & ->).
  exists (p' ++ p), (q ++ q'). now rewrite !string_app_assoc.
Qed.

Lemma substring_of_lower (t s : string) :
  substring_of t s -> substring_of (toLowerCase t) (toLowerCase s).
Proof.
  intros (a & b & ->). exists (toLowerCase a), (toLowerCase b).
  now rewrite !toLowerCase_app.
Qed.

Lemma string_app_length (a b : string) :
  String.length (a ++ b) = (String.length a + String.length b)%nat.
Proof.
  induction a as [|x a IH]; [reflexivity|].
  change (S (String.length (a ++ b))
          = S (String.length a + String.length b)).
  now rewrite IH.
Qed.

Lemma substring_of_length (t s : string) :
  substring_of t s -> (String.length t <= String.length s)%nat.
Proof.
  intros (a & b & ->). rewrite !string_app_length. lia.
Qed.

(** What [array_filter] returns, from what the callback returns. *)
Lemma array_filter_None (f : row -> option value) (l : list row) :
  array_filter f l = None <-> exists r, In r l /\ f r = None.
Proof.
  induction l as [|s l IH]; cbn.
  - split; [discriminate | intros (r & [] & _)].
  - destruct (f s) as [v|] eqn:Hv; cbn.
    + destruct (array_filter f l) as [rest|]; cbn.
      * split; [discriminate|]. intros (r & [<-|Hr] & Hn); [congruence|].
        assert (H : Some rest = None) by (apply IH; eauto).
        discriminate.
      * split; [|reflexivity]. intros _.
        destruct IH as [IH _]. destruct (IH eq_refl) as (r & Hr & Hn). eauto.
    + split; [|reflexivity]. intros _. exists s. auto.
Qed.

Lemma array_filter_Some (f : row -> option value) (l out : list row) :
  array_filter f l = Some out ->
  sublist out l /\ array_filter f out = Some out /\
  forall r, In r out <->
            In r l /\ exists w, f r = Some w /\ ToBoolean w = true.
Proof.
  revert out. induction l as [|s l IH]; cbn; intros out H.
  - injection H as <-. split; [constructor|]. split; [reflexivity|].
    intros r. cbn. tauto.
  - destruct (f s) as [v|] eqn:Hv; cbn in H; [|discriminate].
    destruct (array_filter f l) as [rest|]; cbn in H; [|discriminate].
    destruct (IH rest eq_refl) as (Hs & Hi & Hin).
    injection H as <-. destruct (ToBoolean v) eqn:Ht.
    + split; [now constructor|]. split.
      * cbn. now rewrite Hv, Hi; cbn; rewrite Ht.
      * intros r. cbn. rewrite Hin. split.
        -- intros [<-|[Hr Hw]]; eauto.
        -- intros [[<-|Hr] Hw]; auto.
    + split; [now constructor|]. split; [exact Hi|].
      intros r. rewrite Hin. split; [tauto|].
      intros [[<-|Hr] (w & Hw & Htw)]; [congruence | eauto].
Qed.

Section AnyRows.

Variable search : string.
Hypothesis search_not_empty : (1 <= String.length search)%nat.

(** The method call throws on a truthy value that is not a string, and
    on no other. *)
Lemma field_match_cases (v : value) :
  if throws v then field_match search v = None
  else exists w, field_match search v = Some w /\
                 ToBoolean w = name_has search v.
Proof.
  unfold throws, field_match.
  destruct v as [|[|]|[| | |q]|[|a s]]; try (cbn; eauto; fail).
  - cbn. destruct (Qeq_bool q 0) eqn:E; cbn; [|reflexivity].
    exists (Num (Fin q)). split; [reflexivity|]. cbn. now rewrite E.
  - exists (Str ""). split; [reflexivity|]. cbn [ToBoolean name_has].
    symmetry. apply includes_empty. now rewrite toLowerCase_length.
Qed.

Lemma star_match_cases (r : row) :
  if star_throws search r then star_match search r = None
  else exists w, star_match search r = Some w /\
                 ToBoolean w = search_hit search r.
Proof.
  unfold star_throws, star_match, search_hit.
  pose proof (field_match_cases (prop r "proper")) as Hp.
  pose proof (field_match_cases (prop r "bayer")) as Hb.
  pose proof (field_match_cases (prop r "gl")) as Hg.
  destruct (throws (prop r "proper")); [now rewrite Hp|].
  destruct Hp as (a & -> & <-). cbn.
  destruct (ToBoolean a) eqn:Ta; cbn; [eauto|].
  destruct (throws (prop r "bayer")); [now rewrite Hb|].
  destruct Hb as (b & -> & <-). cbn.
  destruct (ToBoolean b) eqn:Tb; cbn; [eauto|].
  destruct (throws (prop r "gl")); [now rewrite Hg|].
  destruct Hg as (c & -> & <-). cbn. eauto.
Qed.

End AnyRows.

(** X1.  The search throws exactly when the query is longer than one
    character and some row makes the callback throw: a truthy [proper]
    that is not a string, or such a [bayer] behind a [proper] that does
    not match, or such a [gl] behind two that do not. *)
Theorem filteredStars_throws (stars : list row) (search : string) :
  filteredStars stars search = None <->
  (2 <= String.length search)%nat /\
  exists r, In r stars /\ star_throws search r = true.
Proof.
  unfold filteredStars.
  destruct (Nat.ltb_spec 1 (String.length search)) as [Hl|Hl].
  - rewrite array_filter_None. split.
    + intros (r & Hr & Hn). split; [lia|]. exists r. split; [exact Hr|].
      pose proof (star_match_cases search ltac:(lia) r) as H.
      destruct (star_throws search r); [reflexivity|].
      destruct H as (w & Hw & _). congruence.
    + intros (_ & r & Hr & Ht). exists r. split; [exact Hr|].
      pose proof (star_match_cases search ltac:(lia) r) as H.
      now rewrite Ht in H.
  - split; [discriminate | lia].
Qed.

(** X2.  Whenever the search returns, its result is a sublist of the
    stars, its members are the stars the callback is truthy on, and
    searching the result again with the same query returns it
    unchanged. *)
Theorem filteredStars_fixed_point (stars out : list row) (search : string) :
  filteredStars stars search = Some out ->
  sublist out stars /\ filteredStars out search = Some out /\
  (forall r, In r out -> In r stars).
Proof.
  unfold filteredStars.
  destruct (1 <? String.length search)%nat.
  - intros H. destruct (array_filter_Some _ _ _ H) as (Hs & Hi & Hin).
    repeat split; try assumption. intros r Hr. now apply Hin in Hr.
  - intros H. injection H as <-. repeat split; auto.
Qed.

Lemma filteredStars_fixed_point_witness :
  filteredStars [vega] "ve" = Some [vega].
Proof.
  apply (filteredStars_fixed_point [sirius; vega] [vega] "ve"). reflexivity.
Defined.

(** The callback sees the query through its lower-case form only. *)
Lemma star_match_lower (search search' : string) (r : row) :
  toLowerCase search = toLowerCase search' ->
  star_match search r = star_match search' r.
Proof.
  intros E. unfold star_match, field_match. now rewrite E.
Qed.

Lemma array_filter_ext (f g : row -> option value) (l : list row) :
  (forall r, f r = g r) -> array_filter f l = array_filter g l.
Proof.
  intros E. induction l as [|s l IH]; cbn; [reflexivity|].
  now rewrite E, IH.
Qed.

(** X3.  On queries of Latin-1 characters, the strings of this model,
    the search is blind to case: two such queries with the same
    lower-case form give the same result, or both throw. *)
Theorem filteredStars_case_blind (stars : list row) (search search' : string) :
  toLowerCase search = toLowerCase search' ->
  filteredStars stars search = filteredStars stars search'.
Proof.
  intros E. unfold filteredStars.
  assert (El : String.length search = String.length search').
  { rewrite <- (toLowerCase_length search), E. apply toLowerCase_length. }
  rewrite El. destruct (1 <? String.length search')%nat; [|reflexivity].
  apply array_filter_ext. intros r. now apply star_match_lower.
Qed.

Lemma filteredStars_case_blind_witness :
  filteredStars [sirius; vega] "SiR" = filteredStars [sirius; vega] "sir".
Proof.
  apply (filteredStars_case_blind [sirius; vega] "SiR" "sir"). reflexivity.
Defined.

Lemma search_hit_narrows (search search' : string) (r : row) :
  substring_of search search' ->
  search_hit search' r = true -> search_hit search r = true.
Proof.
  intros Hs. rewrite !search_hit_spec.
  intros (k & s & Hk & Hp & Hi). exists k, s. repeat split; try assumption.
  eapply substring_of_trans; [|exact Hi]. now apply substring_of_lower.
Qed.

Lemma filter_filter_narrow {A} (f g : A -> bool) (l : list A) :
  (forall x, g x = true -> f x = true) ->
  List.filter g (List.filter f l) = List.filter g l.
Proof.
  intros H. induction l as [|a l IH]; cbn; [reflexivity|].
  destruct (f a) eqn:Ef; cbn.
  - now rewrite IH.
  - destruct (g a) eqn:Eg; [|exact IH].
    apply H in Eg. congruence.
Qed.

Lemma names_text_filter (f : row -> bool) (l : list row) :
  Forall names_text l -> Forall names_text (List.filter f l).
Proof.
  induction 1 as [|r l Hr _ IH]; cbn; [constructor|].
  destruct (f r); [now constructor | exact IH].
Qed.

(** X4.  On queries and names of Latin-1 characters, the strings of
    this model, typing on narrows the result.  With the searched fields
    strings or absent and a query of at least two characters, a query
    that contains it returns a sublist of its result, the same as
    searching within that result. *)
Theorem filteredStars_narrows (stars : list row) (search search' : string) :
  Forall names_text stars ->
  (2 <= String.length search)%nat -> substring_of search search' ->
  exists out out',
    filteredStars stars search = Some out /\
    filteredStars stars search' = Some out' /\
    sublist out' out /\
    filteredStars out search' = Some out'.
Proof.
  intros Hn Hl Hs. pose proof (substring_of_length _ _ Hs) as Hl'.
  exists (List.filter (search_hit search) stars),
         (List.filter (search_hit search') stars).
  assert (F : forall l q, Forall names_text l -> (2 <= String.length q)%nat ->
            filteredStars l q = Some (List.filter (search_hit q) l)).
  { intros l q Hnl Hq. unfold filteredStars.
    destruct (Nat.ltb_spec 1 (String.length q)); [|lia].
    apply array_filter_total. eapply Forall_impl; [exact Hnl|].
    intros r Hr. apply star_match_text; [lia | exact Hr]. }
  assert (E : List.filter (search_hit search')
                (List.filter (search_hit search) stars)
              = List.filter (search_hit search') stars).
  { apply filter_filter_narrow. intros r. now apply search_hit_narrows. }
  split; [apply F; [assumption | lia]|].
  split; [apply F; [assumption | lia]|].
  split; [rewrite <- E; apply filter_sublist|].
  rewrite F; [now rewrite E | now apply names_text_filter | lia].
Qed.

Lemma filteredStars_narrows_witness :
  exists out out',
    filteredStars [sirius; vega] "ir" = Some out /\
    filteredStars [sirius; vega] "Siri" = Some out' /\
    sublist out' out /\
    filteredStars out "Siri" = Some out'.
Proof.
  apply (filteredStars_narrows [sirius; vega] "ir" "Siri").
  - exact sirius_vega_names.
  - cbn; lia.
  - exists "S", "i". reflexivity.
Defined.

Lemma filteredStars_throws_witness :
  filteredStars [sirius; <["bayer" := Num (Fin 5)]> vega] "zz" = None.
Proof.
  apply (filteredStars_throws [sirius; <["bayer" := Num (Fin 5)]> vega] "zz").
  split; [cbn; lia|].
  exists (<["bayer" := Num (Fin 5)]> vega). split; [cbn; tauto | reflexivity].
Defined.

(** ** The buffers as a whole *)

Lemma lookup_map {A B} (f : A -> B) (l : list A) (i : nat) :
  map f l !! i = option_map f (l !! i).
Proof.
  revert i. induction l as [|a l IH]; intros [|i]; cbn; auto.
Qed.

Lemma triple_at_cons (a b c : number) (buf : list number) (i : nat) :
  triple_at (a :: b :: c :: buf) (S i) = triple_at buf i.
Proof. reflexivity. Qed.

(** A buffer is determined by its length and its triples. *)
Lemma triples_flat (ts : list (number * number * number)) :
  forall buf : list number,
  length buf = (length ts * 3)%nat ->
  (forall i t, ts !! i = Some t -> triple_at buf i = Some t) ->
  buf = flat3 ts.
Proof.
  induction ts as [|[[a b] c] ts IH]; intros buf Hl Ht.
  - now destruct buf.
  - destruct buf as [|a' [|b' [|c' buf]]]; try discriminate.
    pose proof (Ht 0%nat (a, b, c) eq_refl) as H0. cbn in H0.
    injection H0 as -> -> ->. cbn. do 3 f_equal.
    apply IH.
    + cbn in Hl. lia.
    + intros i t Hi. rewrite <- (triple_at_cons a b c). now apply Ht.
Qed.

Lemma buffers_flat (stars : list row) :
  buffers stars =
  (flat3 (map (fun s => fround3 (position_of s)) stars),
   flat3 (map (fun s => fround3 (color (prop s "ci"))) stars)).
Proof.
  destruct (filled_loop stars (length stars) (le_n _)) as (Hp & Hc & Hi).
  fold (buffers stars) in Hp, Hc, Hi.
  destruct (buffers stars) as [p c]. cbn [fst snd] in *. f_equal.
  - apply triples_flat; [now rewrite length_map|].
    intros i t Ht. rewrite lookup_map in Ht.
    destruct (stars !! i) as [s|] eqn:Hs; [|discriminate].
    injection Ht as <-. apply (Hi i s); eauto using lookup_lt_Some.
  - apply triples_flat; [now rewrite length_map|].
    intros i t Ht. rewrite lookup_map in Ht.
    destruct (stars !! i) as [s|] eqn:Hs; [|discriminate].
    injection Ht as <-. apply (Hi i s); eauto using lookup_lt_Some.
Qed.

Lemma flat3_app (a b : list (number * number * number)) :
  flat3 (a ++ b)%list = (flat3 a ++ flat3 b)%list.
Proof. unfold flat3. apply flat_map_app. Qed.

(** X5.  The builder treats the stars one by one: the buffers of two
    lists put end to end are the buffers of the first followed by those
    of the second. *)
Theorem buffers_app (a b : list row) :
  (buffers (a ++ b)%list).1 = ((buffers a).1 ++ (buffers b).1)%list /\
  (buffers (a ++ b)%list).2 = ((buffers a).2 ++ (buffers b).2)%list.
Proof.
  rewrite !buffers_flat. cbn [fst snd].
  now rewrite !map_app, !flat3_app.
Qed.

(** X6.  The buffers depend on [x], [y], [z] and [ci] alone: two lists
    of stars that agree on them, star by star, give the same buffers,
    whatever their names and other fields. *)
Theorem buffers_same_points (stars stars' : list row) :
  Forall2 same_point stars stars' -> buffers stars = buffers stars'.
Proof.
  intros H. rewrite !buffers_flat.
  assert (E : map (fun s => fround3 (position_of s)) stars
              = map (fun s => fround3 (position_of s)) stars' /\
              map (fun s => fround3 (color (prop s "ci"))) stars
              = map (fun s => fround3 (color (prop s "ci"))) stars').
  { induction H as [|s s' l l' (Hx & Hy & Hz & Hc) _ [IHp IHc]];
      [now split|].
    assert (P : position_of s = position_of s')
      by (unfold position_of; now rewrite Hx, Hy, Hz).
    split; cbn [map]; [now rewrite P, IHp | now rewrite Hc, IHc]. }
  destruct E as [-> ->]. reflexivity.
Qed.

Lemma buffers_same_points_witness :
  buffers [<["proper" := Str "Alpha Lyrae"]> vega; <["hd" := Str "48915"]> sirius]
  = buffers [vega; sirius].
Proof.
  apply buffers_same_points. repeat constructor.
Defined.


(** ** From the parsed rows to the screen *)

Lemma filteredStars_In (stars out : list row) (search : string) :
  filteredStars stars search = Some out ->
  forall r, In r out -> In r stars.
Proof.
  unfold filteredStars. destruct (1 <? String.length search)%nat.
  - intros H r Hr. destruct (array_filter_Some _ _ _ H) as (_ & _ & Hin).
    now apply Hin in Hr.
  - intros H. now injection H as <-.
Qed.

Lemma filtered_In (data : list row) (r : row) :
  In r (filtered data) <-> In r data /\ ToBoolean (row_ok r) = true.
Proof. unfold filtered. apply List.filter_In. Qed.

Lemma row_ok_x_number (r : row) :
  ToBoolean (row_ok r) = true -> isNaN (parseFloat (prop r "x")) = false.
Proof.
  rewrite row_ok_truthy, !andb_true_iff, negb_true_iff. tauto.
Qed.

(** X8.  Through the whole path, rows to row filter to search to
    buffers, every star shown is one of the parsed rows and its first
    position slot holds a number, never NaN. *)
Theorem shown_x_is_number (data shown : list row) (search : string)
    (i : nat) (s : row) :
  filteredStars (filtered data) search = Some shown ->
  shown !! i = Some s ->
  In s data /\
  exists x y z,
    triple_at (buffers shown).1 i = Some (x, y, z) /\ isNaN x = false.
Proof.
  intros Hf Hs.
  assert (Hin : In s (filtered data)).
  { apply (filteredStars_In _ _ _ Hf), list_elem_of_In.
    apply list_elem_of_lookup. eauto. }
  apply filtered_In in Hin as [Hd Hok]. split; [exact Hd|].
  destruct (filled_loop shown (length shown) (le_n _)) as (_ & _ & Hi).
  fold (buffers shown) in Hi.
  destruct (Hi i s (lookup_lt_Some _ _ _ Hs) Hs) as [Hp _].
  eexists _, _, _. split; [exact Hp|].
  rewrite isNaN_fround. now apply row_ok_x_number.
Qed.

Lemma shown_x_is_number_witness :
  In vega [blank; sirius; vega] /\
  exists x y z,
    triple_at (buffers [vega]).1 0 = Some (x, y, z) /\ isNaN x = false.
Proof.
  apply (shown_x_is_number [blank; sirius; vega] [vega] "eg" 0 vega);
    reflexivity.
Defined.

(** ** Runs of the page *)

Lemma run_snoc (st : Home) (es : list event) (e : event) :
  run st (es ++ [e])%list = step (run st es) e.
Proof. unfold run. now rewrite foldl_app. Qed.

Lemma loaded_snoc (es : list event) (e : event) (r : row) :
  loaded es r -> loaded (es ++ [e])%list r.
Proof.
  intros (Hok & data & Hd & Hr). split; [exact Hok|].
  exists data. split; [|exact Hr]. apply in_or_app. now left.
Qed.

Lemma run_loaded (es : list event) :
  (forall r, In r (stars (run initial es)) -> loaded es r) /\
  (forall r, selected (run initial es) = Star r -> loaded es r).
Proof.
  induction es as [|e es [IHs IHp]] using rev_ind.
  - split; [intros r [] | discriminate].
  - rewrite run_snoc. set (st := run initial es) in *.
    destruct e as [data|text|intersects|].
    + split; cbn.
      * intros r Hr. apply filtered_In in Hr as [Hd Hok].
        split; [exact Hok|]. exists data. split; [|exact Hd].
        apply in_or_app. right. now left.
      * intros r Hr. now apply loaded_snoc, IHp.
    + split; cbn; intros r Hr; apply loaded_snoc; auto.
    + destruct (step_click st intersects)
        as [->|(shown & i & Hf & _ & _ & ->)].
      * split; intros r Hr; apply loaded_snoc; auto.
      * split; cbn; intros r Hr; apply loaded_snoc.
        -- now apply IHs.
        -- apply IHs, (filteredStars_In _ _ _ Hf).
           unfold element in Hr.
           destruct (shown !! i) as [r'|] eqn:Hi; [|discriminate].
           injection Hr as ->. apply list_elem_of_In.
           apply list_elem_of_lookup. eauto.
    + split; cbn; [|discriminate].
      intros r Hr. now apply loaded_snoc, IHs.
Qed.

(** X9.  After any run of events from the initial state, the selected
    star, and every star held, is a row that a completed load delivered
    and that the row filter kept: [x], [y] and [z] truthy and [x] a
    number. *)
Theorem selected_was_loaded (es : list event) (r : row) :
  selected (run initial es) = Star r \/ In r (stars (run initial es)) ->
  ToBoolean (prop r "x") = true /\ ToBoolean (prop r "y") = true /\
  ToBoolean (prop r "z") = true /\
  isNaN (parseFloat (prop r "x")) = false /\
  exists data, In (Complete data) es /\ In r data.
Proof.
  intros H.
  assert (L : loaded es r).
  { destruct (run_loaded es) as [Hs Hp]. destruct H; auto. }
  destruct L as (Hok & Hd). rewrite row_ok_truthy in Hok.
  rewrite !andb_true_iff, negb_true_iff in Hok. tauto.
Qed.

Lemma selected_was_loaded_witness :
  exists data,
    In (Complete data)
       [Complete [blank; sirius; vega]; Change "ve";
        Click [ {| distance := 1; index := 0 |} ]] /\
    In vega data.
Proof.
  apply (selected_was_loaded
           [Complete [blank; sirius; vega]; Change "ve";
            Click [ {| distance := 1; index := 0 |} ]] vega).
  left. reflexivity.
Defined.

Lemma filteredStars_nil (search : string) : filteredStars [] search = Some [].
Proof. unfold filteredStars. now destruct (1 <? String.length search)%nat. Qed.

Lemma run_loading (es : list event) :
  loading (run initial es) = negb (existsb is_complete es) /\
  (loading (run initial es) = true ->
   stars (run initial es) = [] /\ selected (run initial es) = Null).
Proof.
  induction es as [|e es [IHl IHs]] using rev_ind.
  - now split.
  - rewrite run_snoc, existsb_app. set (st := run initial es) in *.
    destruct e as [data|text|intersects|]; cbn [existsb is_complete orb].
    + cbn. rewrite orb_true_r. split; [reflexivity | discriminate].
    + cbn. rewrite orb_false_r. auto.
    + rewrite orb_false_r.
      destruct (loading st) eqn:Hl.
      * destruct (IHs eq_refl) as [Hst Hsel].
        assert (E : step st (Click intersects) = st).
        { cbn. now rewrite Hst, filteredStars_nil. }
        rewrite E. rewrite Hl. auto.
      * destruct (step_click st intersects)
          as [->|(shown & i & _ & _ & _ & ->)]; cbn; rewrite Hl;
          (split; [exact IHl | discriminate]).
    + cbn. rewrite orb_false_r. split; [exact IHl|].
      intros Hl. split; [now apply IHs | reflexivity].
Qed.

(** X10.  After any run of events from the initial state, [loading] is
    true exactly when no load has completed; until then no star is
    held or selected, and the page shows the loading message, no
    sidebar and no points, whatever was typed or clicked. *)
Theorem loading_until_complete (Number_toString : Q -> string)
    (toFixed : Q -> nat -> string) (es : list event) :
  loading (run initial es) = negb (existsb is_complete es) /\
  (existsb is_complete es = false ->
   stars (run initial es) = [] /\ selected (run initial es) = Null /\
   render Number_toString toFixed (run initial es)
   = Some {| page_sidebar := None; page_loading := true;
             page_points := None |}).
Proof.
  destruct (run_loading es) as [Hl Hs]. split; [exact Hl|].
  intros Hc. rewrite Hc in Hl. destruct (Hs Hl) as [Hst Hsel].
  repeat split; try assumption.
  unfold render. now rewrite Hst, Hsel, Hl, filteredStars_nil.
Qed.

Lemma loading_until_complete_witness :
  selected (run initial [Change "si"; Click [ {| distance := 1; index := 0 |} ]])
  = Null.
Proof.
  apply (loading_until_complete (fun _ => "") (fun _ _ => "")
           [Change "si"; Click [ {| distance := 1; index := 0 |} ]]).
  reflexivity.
Defined.

(** ** More on the star colour *)

(** X11.  The colour is exactly white only for a falsy [ci]: for a
    truthy one red is 1 only up to [c = 0.5] and blue is 1 only from
    [c = 5/9] on, so the three channels are never all 1. *)
Theorem color_white_iff_falsy (ci : value) :
  color ci = white <-> ToBoolean ci = false.
Proof.
  split.
  - intros Hw. destruct (ToBoolean ci) eqn:Ht; [|reflexivity].
    destruct (color_truthy ci Ht) as (c & r & g & b & _ & _ & He & Hr & _ & Hb).
    rewrite Hw in He. injection He as <- <- <-.
    unfold red_of in Hr. unfold blue_of in Hb.
    symmetry in Hr, Hb. apply Q.min_l_iff in Hr, Hb. lra.
  - intros Ht. unfold color. now rewrite Ht.
Qed.

Lemma color_white_iff_falsy_witness : color (Str "") = white.
Proof. apply (color_white_iff_falsy (Str "")). reflexivity. Defined.

Lemma clamp_ci_finite (ci : value) (x : Q) :
  parseFloat ci = Fin x ->
  exists c, clamp_ci ci = Fin c /\ (c == Qmax (-2 # 5) (Qmin 2 x))%Q.
Proof.
  intros Hx. unfold clamp_ci. rewrite Hx.
  destruct (num_or_zero_cases (Fin x))
    as [[H _]|[(q & Hq & Hq0 & ->)|[_ ->]]].
  - discriminate.
  - injection Hq as <-.
    destruct (max_min_clamp (Fin 0) eq_refl) as (c & Hc & E & _).
    exists c. split; [exact Hc|]. rewrite E. cbn. now rewrite Hq0.
  - destruct (max_min_clamp (Fin x) eq_refl) as (c & Hc & E & _).
    exists c. split; [exact Hc | exact E].
Qed.

(** X12.  Along a growing colour index red never grows and blue never
    shrinks: for two truthy [ci] that parse as finite numbers [x <= y],
    the red of [y] is at most the red of [x] and the blue of [y] at
    least the blue of [x]. *)
Theorem color_monotone (ci ci' : value) (x y : Q) :
  ToBoolean ci = true -> ToBoolean ci' = true ->
  parseFloat ci = Fin x -> parseFloat ci' = Fin y -> (x <= y)%Q ->
  exists r g b r' g' b',
    color ci = (Fin r, Fin g, Fin b) /\
    color ci' = (Fin r', Fin g', Fin b') /\
    (r' <= r)%Q /\ (b <= b')%Q.
Proof.
  intros Ht Ht' Hx Hy Hxy.
  destruct (color_truthy ci Ht) as (c & r & g & b & Hc & _ & He & Hr & _ & Hb).
  destruct (color_truthy ci' Ht')
    as (c' & r' & g' & b' & Hc' & _ & He' & Hr' & _ & Hb').
  exists r, g, b, r', g', b'. split; [exact He|]. split; [exact He'|].
  destruct (clamp_ci_finite ci x Hx) as (d & Hd & Ed).
  destruct (clamp_ci_finite ci' y Hy) as (d' & Hd' & Ed').
  rewrite Hc in Hd. injection Hd as <-.
  rewrite Hc' in Hd'. injection Hd' as <-.
  assert (Hcc : (c <= c')%Q).
  { rewrite Ed, Ed'. apply Q.max_le_compat_l. now apply Q.min_le_compat_l. }
  rewrite Hr, Hr', Hb, Hb'. unfold red_of, blue_of. split.
  - apply Q.min_le_compat_l. lra.
  - apply Q.min_le_compat_l. lra.
Qed.

Lemma color_monotone_witness :
  exists r g b r' g' b',
    color (Str "-0.25") = (Fin r, Fin g, Fin b) /\
    color (Str "1.5") = (Fin r', Fin g', Fin b') /\
    (r' <= r)%Q /\ (b <= b')%Q.
Proof.
  apply (color_monotone (Str "-0.25") (Str "1.5") (-1 # 4) (3 # 2));
    try reflexivity.
  lra.
Defined.

(** ** The pointer position *)

Lemma mouse_finite (cx cy l t w h : Q) :
  (0 < w)%Q -> (0 < h)%Q ->
  exists x y,
    mouse (Fin cx) (Fin cy) (Fin l) (Fin t) (Fin w) (Fin h) = (Fin x, Fin y) /\
    (x == (cx - l) / w * 2 - 1)%Q /\ (y == - ((cy - t) / h) * 2 + 1)%Q.
Proof.
  intros Hw Hh. unfold mouse. cbn [num_sub num_div].
  destruct (Qeq_bool w 0) eqn:Ew; [apply Qeq_bool_iff in Ew; lra|].
  destruct (Qeq_bool h 0) eqn:Eh; [apply Qeq_bool_iff in Eh; lra|].
  cbn. eexists _, _. split; [reflexivity|].
  rewrite !Qred_correct. split; reflexivity.
Qed.

(** X13.  For a click within a canvas of positive width and height the
    pointer position handed to the raycaster is finite and within
    [[-1, 1]] on both axes; the left and top edges give [x = -1] and
    [y = 1], the right and bottom edges [x = 1] and [y = -1]; and of two
    such clicks the one further right has the greater or equal [x], the
    one further down the smaller or equal [y]: the vertical axis is
    flipped. *)
Theorem mouse_in_canvas (cx cy l t w h : Q) :
  (0 < w)%Q -> (0 < h)%Q ->
  (l <= cx <= l + w)%Q -> (t <= cy <= t + h)%Q ->
  exists x y,
    mouse (Fin cx) (Fin cy) (Fin l) (Fin t) (Fin w) (Fin h) = (Fin x, Fin y) /\
    (-1 <= x <= 1)%Q /\ (-1 <= y <= 1)%Q /\
    (cx == l -> x == -1)%Q /\ (cx == l + w -> x == 1)%Q /\
    (cy == t -> y == 1)%Q /\ (cy == t + h -> y == -1)%Q /\
    forall cx' cy',
      (l <= cx' <= l + w)%Q -> (t <= cy' <= t + h)%Q ->
      exists x' y',
        mouse (Fin cx') (Fin cy') (Fin l) (Fin t) (Fin w) (Fin h)
        = (Fin x', Fin y') /\
        (cx <= cx' -> x <= x')%Q /\ (cy <= cy' -> y' <= y)%Q.
Proof.
  intros Hw Hh Hcx Hcy.
  destruct (mouse_finite cx cy l t w h Hw Hh) as (x & y & E & Hx & Hy).
  exists x, y. split; [exact E|].
  assert (Hu : (w * ((cx - l) / w) == cx - l)%Q) by (apply Qmult_div_r; lra).
  assert (Hv : (h * ((cy - t) / h) == cy - t)%Q) by (apply Qmult_div_r; lra).
  set (u := ((cx - l) / w)%Q) in *. set (v := ((cy - t) / h)%Q) in *.
  assert (Hy' : (y == 1 - v * 2)%Q) by (rewrite Hy; ring).
  rewrite Hx, Hy'. repeat split; intros; try nra.
  destruct (mouse_finite cx' cy' l t w h Hw Hh) as (x' & y' & E' & Hx' & Hy2).
  exists x', y'. split; [exact E'|].
  assert (Hu' : (w * ((cx' - l) / w) == cx' - l)%Q)
    by (apply Qmult_div_r; lra).
  assert (Hv' : (h * ((cy' - t) / h) == cy' - t)%Q)
    by (apply Qmult_div_r; lra).
  set (u' := ((cx' - l) / w)%Q) in *. set (v' := ((cy' - t) / h)%Q) in *.
  assert (Hy2' : (y' == 1 - v' * 2)%Q) by (rewrite Hy2; ring).
  rewrite Hx', Hy2'. split; intros; nra.
Qed.

Lemma mouse_in_canvas_witness :
  exists x y,
    mouse (Fin 110) (Fin 220) (Fin 10) (Fin 20) (Fin 400) (Fin 200)
    = (Fin x, Fin y) /\
    (-1 <= x <= 1)%Q /\ (-1 <= y <= 1)%Q /\
    (110 == 10 -> x == -1)%Q /\ (110 == 10 + 400 -> x == 1)%Q /\
    (220 == 20 -> y == 1)%Q /\ (220 == 20 + 200 -> y == -1)%Q /\
    forall cx' cy',
      (10 <= cx' <= 10 + 400)%Q -> (20 <= cy' <= 20 + 200)%Q ->
      exists x' y',
        mouse (Fin cx') (Fin cy') (Fin 10) (Fin 20) (Fin 400) (Fin 200)
        = (Fin x', Fin y') /\
        (110 <= cx' -> x <= x')%Q /\ (220 <= cy' -> y' <= y)%Q.
Proof. apply (mouse_in_canvas 110 220 10 20 400 200); lra. Defined.

(** X14.  On a canvas of zero width the horizontal pointer coordinate is
    not a finite number, and on one of zero height the vertical one is
    not: the division by the size gives NaN or an infinity, which the
    doubling and the shift keep. *)
Theorem mouse_on_empty_canvas (cx cy l t w h : Q) :
  ((w == 0)%Q ->
   isFinite (mouse (Fin cx) (Fin cy) (Fin l) (Fin t) (Fin w) (Fin h)).1
   = false) /\
  ((h == 0)%Q ->
   isFinite (mouse (Fin cx) (Fin cy) (Fin l) (Fin t) (Fin w) (Fin h)).2
   = false).
Proof.
  unfold mouse. cbn [fst snd num_sub num_div]. split; intros H0;
    apply Qeq_bool_iff in H0; rewrite H0.
  - now destruct (Z.sgn (Qnum (Qred (cx - l)))).
  - now destruct (Z.sgn (Qnum (Qred (cy - t)))).
Qed.

Lemma mouse_on_empty_canvas_witness :
  isFinite (mouse (Fin 5) (Fin 5) (Fin 0) (Fin 0) (Fin 0) (Fin 10)).1 = false.
Proof.
  apply (mouse_on_empty_canvas 5 5 0 0 0 10). reflexivity.
Defined.

(** ** The sidebar *)

Lemma substring_of_refl (t : string) : substring_of t t.
Proof.
  exists "", "". change (t = t ++ "").
  induction t as [|c t IH]; [reflexivity|].
  change (String c t = String c (t ++ "")). now rewrite <- IH.
Qed.

Lemma substring_of_app_l (t s a : string) :
  substring_of t s -> substring_of t (a ++ s).
Proof.
  intros (p & q & ->). exists (a ++ p), q. now rewrite string_app_assoc.
Qed.

Lemma substring_of_app_r (t s b : string) :
  substring_of t s -> substring_of t (s ++ b).
Proof.
  intros (p & q & ->). exists p, (q ++ b). now rewrite !string_app_assoc.
Qed.

(** A field that is a string or absent is falsy, or a string with a first
    character. *)
Lemma text_cases (v : value) :
  text_or_absent v = true ->
  (ToBoolean v = false /\ forall n, v = Str n -> n = "") \/
  exists c t, v = Str (String c t).
Proof.
  destruct v as [|b|n|[|c t]]; cbn; try discriminate; eauto.
  - left. split; [reflexivity | discriminate].
  - left. split; [reflexivity|]. now intros n [= <-].
Qed.

Section Panel.

Variable Number_toString : Q -> string.
Variable toFixed : Q -> nat -> string.

(** X15.  With [bayer], [gl] and [hd] strings or absent, the line of
    alternate names is never blank: it reads [No alternate names] when
    all three are missing, and otherwise every name that is there
    occurs in it. *)
Theorem sidebar_names_line (s : row) :
  alternates_text s ->
  exists line,
    sb_names <$> StarSidebar Number_toString toFixed (Star s)
    = Some (Str line) /\
    line <> "" /\
    (ToBoolean (prop s "bayer") = false -> ToBoolean (prop s "gl") = false ->
     ToBoolean (prop s "hd") = false -> line = "No alternate names") /\
    forall k name, In k ["bayer"; "gl"; "hd"] -> prop s k = Str name ->
                   name <> "" -> substring_of name line.
Proof.
  intros (Hb & Hg & Hh). cbn [StarSidebar fmap option_fmap option_map sb_names].
  unfold js_or.
  destruct (text_cases _ Hb) as [[Tb Nb]|(cb & tb & Eb)];
  destruct (text_cases _ Hg) as [[Tg Ng]|(cg & tg & Eg)];
  destruct (text_cases _ Hh) as [[Th Nh]|(ch & th & Eh)];
  rewrite ?Eb, ?Eg, ?Eh; cbn [ToBoolean List.filter]; rewrite ?Tb, ?Tg, ?Th;
  cbn [ToBoolean List.filter join ToString];
  eexists; (split; [reflexivity|]); (split; [discriminate|]);
  (split; [try discriminate; reflexivity|]).
  all: intros k name Hk Hn Hne; cbn in Hk;
    destruct Hk as [<-|[<-|[<-|[]]]];
    try (exfalso; apply Hne; eauto; fail);
    rewrite ?Eb, ?Eg, ?Eh in Hn; injection Hn as <-.
  all: eauto 10 using substring_of_refl, substring_of_app_l, substring_of_app_r.
Qed.

(** X16.  The distance line reads [?] for a falsy [dist], [NaN ly] for a
    [dist] that is a non-empty string not starting with a number, and
    the two-digit form of the number followed by [ ly] otherwise. *)
Theorem sidebar_distance_line (s : row) :
  (ToBoolean (prop s "dist") = false ->
   sb_distance <$> StarSidebar Number_toString toFixed (Star s)
   = Some (Str "?")) /\
  (forall d, prop s "dist" = Str d -> d <> "" ->
     starts_number (trim_start d) = false ->
     sb_distance <$> StarSidebar Number_toString toFixed (Star s)
     = Some (Str "NaN ly")) /\
  (forall q, ToBoolean (prop s "dist") = true ->
     parseFloat (prop s "dist") = Fin q ->
     sb_distance <$> StarSidebar Number_toString toFixed (Star s)
     = Some (Str (toFixed q 2 ++ " ly"))).
Proof.
  cbn [StarSidebar fmap option_fmap option_map sb_distance].
  split; [|split].
  - now intros ->.
  - intros d Hd Hne Hn. rewrite Hd.
    assert (Hp : isNaN (parseFloat (Str d)) = true).
    { destruct (isNaN (parseFloat (Str d))) eqn:E; [reflexivity|].
      apply parseFloat_numeric in E. congruence. }
    destruct d as [|c d]; [congruence|]. cbn [ToBoolean].
    destruct (parseFloat (Str (String c d))); try discriminate. reflexivity.
  - intros q -> ->. reflexivity.
Qed.

End Panel.

Lemma sidebar_names_line_witness :
  exists line,
    sb_names <$> StarSidebar (fun _ => "") (fun _ _ => "")
                   (Star (<["gl" := Str "Gl 244A"]> sirius))
    = Some (Str line) /\
    line <> "" /\
    (ToBoolean (prop (<["gl" := Str "Gl 244A"]> sirius) "bayer") = false ->
     ToBoolean (prop (<["gl" := Str "Gl 244A"]> sirius) "gl") = false ->
     ToBoolean (prop (<["gl" := Str "Gl 244A"]> sirius) "hd") = false ->
     line = "No alternate names") /\
    forall k name, In k ["bayer"; "gl"; "hd"] ->
      prop (<["gl" := Str "Gl 244A"]> sirius) k = Str name ->
      name <> "" -> substring_of name line.
Proof.
  apply (sidebar_names_line (fun _ => "") (fun _ _ => "")
           (<["gl" := Str "Gl 244A"]> sirius)).
  repeat split.
Defined.

Lemma sidebar_distance_line_witness :
  sb_distance <$> StarSidebar (fun _ => "") (fun _ _ => "")
                    (Star (<["dist" := Str "far"]> vega))
  = Some (Str "NaN ly") /\
  sb_distance <$> StarSidebar (fun _ => "") (fun _ _ => "") (Star vega)
  = Some (Str "?").
Proof.
  split.
  - apply (proj1 (proj2 (sidebar_distance_line (fun _ => "") (fun _ _ => "")
                           (<["dist" := Str "far"]> vega))) "far");
      [reflexivity | discriminate | reflexivity].
  - apply (proj1 (sidebar_distance_line (fun _ => "") (fun _ _ => "") vega)).
    reflexivity.
Defined.

(** ** The row filter on parts and on its own result *)

(** X17.  The row filter judges each row on its own: the rows kept of
    two batches put end to end are those kept of the first followed by
    those kept of the second, filtering a second time removes nothing,
    and no more rows come out than went in. *)
Theorem filtered_by_row (a b : list row) :
  filtered (a ++ b)%list = (filtered a ++ filtered b)%list /\
  filtered (filtered a) = filtered a /\
  (length (filtered a) <= length a)%nat.
Proof.
  unfold filtered. split; [apply List.filter_app|]. split.
  - induction a as [|r a IH]; cbn; [reflexivity|].
    destruct (ToBoolean (row_ok r)) eqn:E; cbn; [|exact IH].
    now rewrite E, IH.
  - apply List.filter_length_le.
Qed.

(** ** What a run leaves in the state *)

Lemma step_click_frame (st : Home) (intersects : list intersection) :
  stars (step st (Click intersects)) = stars st /\
  search (step st (Click intersects)) = search st /\
  loading (step st (Click intersects)) = loading st.
Proof.
  destruct (step_click st intersects) as [->|(shown & i & _ & _ & _ & ->)];
    now repeat split.
Qed.

(** X18.  After any run of events from the initial state the stars held
    are the rows kept of the last completed load, none if there was no
    load, and the query is the text of the last change of the search
    input, empty if there was none; clicks and the close button touch
    neither. *)
Theorem run_last_load_and_query (es : list event) :
  stars (run initial es)
  = match List.last (List.filter is_complete es) Close with
    | Complete data => filtered data
    | _ => []
    end /\
  search (run initial es)
  = match List.last (List.filter is_change es) Close with
    | Change text => text
    | _ => ""
    end.
Proof.
  induction es as [|e es [IHs IHq]] using rev_ind; [now split|].
  rewrite run_snoc, !List.filter_app. set (st := run initial es) in *.
  destruct e as [data|text|intersects|]; cbn [List.filter is_complete is_change].
  - rewrite List.last_last, app_nil_r. now split.
  - rewrite List.last_last, app_nil_r. now split.
  - rewrite !app_nil_r.
    destruct (step_click_frame st intersects) as (-> & -> & _). now split.
  - rewrite !app_nil_r. now split.
Qed.

Section Page.

Variable Number_toString : Q -> string.
Variable toFixed : Q -> nat -> string.

(** X19.  The page renders unless the search throws.  It draws points
    exactly when the search result is not empty, and then draws the
    buffers of that result, three slots a star in each: [StarField] is
    never mounted on an empty list, so its early exit is not taken. *)
Theorem render_points (st : Home) :
  (render Number_toString toFixed st = None <->
   filteredStars (stars st) (search st) = None) /\
  forall shown, filteredStars (stars st) (search st) = Some shown ->
    exists pg,
      render Number_toString toFixed st = Some pg /\
      page_sidebar pg = StarSidebar Number_toString toFixed (selected st) /\
      (shown = [] -> page_points pg = None) /\
      (shown <> [] ->
       page_points pg = Some (buffers shown) /\
       length (buffers shown).1 = (3 * length shown)%nat /\
       length (buffers shown).2 = (3 * length shown)%nat).
Proof.
  unfold render. split.
  - destruct (filteredStars (stars st) (search st)); cbn; split;
      congruence.
  - intros shown ->. cbn. eexists. split; [reflexivity|]. cbn.
    split; [reflexivity|]. split.
    + now intros ->.
    + intros Hne. destruct shown as [|s shown]; [congruence|].
      split; [reflexivity|].
      destruct (filled_loop (s :: shown) _ (le_n _)) as (Hp & Hc & _).
      fold (buffers (s :: shown)) in Hp, Hc. split; lia.
Qed.

End Page.

Lemma render_points_witness :
  exists pg,
    render (fun _ => "") (fun _ _ => "") sirius_picked = Some pg /\
    page_sidebar pg
    = StarSidebar (fun _ => "") (fun _ _ => "") (selected sirius_picked) /\
    ([sirius; vega] = [] -> page_points pg = None) /\
    ([sirius; vega] <> [] ->
     page_points pg = Some (buffers [sirius; vega]) /\
     length (buffers [sirius; vega]).1 = (3 * length [sirius; vega])%nat /\
     length (buffers [sirius; vega]).2 = (3 * length [sirius; vega])%nat).
Proof.
  apply (proj2 (render_points (fun _ => "") (fun _ _ => "") sirius_picked)).
  reflexivity.
Defined.
